(** * The status-bar tray shim of mlui ([src/native/tray.c])

    A shallow embedding of the macOS branch of [tray.c]: the [TrayHandle]
    struct, the [TrayTarget] click adapter and the four primitives
    [mlui_tray_make], [mlui_tray_set_title], [mlui_tray_remove] and
    [mlui_tray_set_on_click], together with the part of AppKit and of the
    OCaml runtime they talk to.

    The C code is stateful, so every primitive is a computation in a small
    state-and-failure monad over a [world]: the malloc'd handles, the
    Objective-C objects they point to, the status bar, the runtime's table of
    global roots and the chronological trace of the native calls made so
    far.  Failure ([None]) stands for undefined behaviour: a dereference of
    a pointer that is not allocated, a message to a deallocated object, a
    release past zero.

    Reference counts are those of manual retain and release, counted as
    the references this layer owns: the reference that an autorelease pool
    holds until the end of a primitive is not counted. The stubs of the
    other platforms (the [#else] branch) touch no state and are left out. *)

From stdpp Require Import gmap strings list fin_maps.
From Stdlib Require Import ZArith.

Open Scope Z_scope.

(** ** Data *)

(** Addresses of malloc'd structs and of Objective-C objects. A C pointer is
    an [option loc], [None] being [NULL] (or [nil]). *)
Abbreviation loc := positive.

(** An OCaml [value] is a machine word; [0] is the word the code uses for
    an empty callback slot. No OCaml value is the word [0]: immediates are
    odd and blocks are non-null pointers. *)
Abbreviation value := Z.
Definition Val_unit : value := 1.

(** The blocks the primitives receive and return: an [Abstract_tag] block of
    one word holding a raw C pointer. *)
Record abstract := Abstract { Data_abstract_val : option loc }.

(** An image, named by what it holds. The reference that
    [[[NSImage alloc] initWithContentsOfFile:]] hands to its caller, which
    this layer never releases, is not counted. *)
Definition NSImage := string.

Inductive SEL := sel_handleClick.

Inductive NSApplicationActivationPolicy :=
  | NSApplicationActivationPolicyRegular
  | NSApplicationActivationPolicyAccessory
  | NSApplicationActivationPolicyProhibited.

(** [@interface TrayTarget : NSObject { value callback; }], with the number
    of references this layer owns. *)
Record TrayTarget := mkTarget {
  callback : value;
  target_refs : nat
}.

(** [typedef struct { NSStatusItem* statusItem; TrayTarget* target;
    int removed; } TrayHandle;] *)
Record TrayHandle := mkHandle {
  statusItem : option loc;
  target : option loc;
  removed : Z
}.

(** The properties of [NSStatusItem.button] that the shim reads or writes.
    A title is an [NSString*], so it may be [nil]. *)
Record NSStatusBarButton := mkButton {
  image : option NSImage;
  title : option string;
  isHidden : bool;
  button_target : option loc;
  button_action : option SEL
}.

Record NSStatusItem := mkItem {
  visible : bool;
  button : NSStatusBarButton;
  item_refs : nat
}.

Inductive object := ObjItem (si : loc) | ObjTarget (t : loc).

#[global] Instance object_eq_dec : EqDecision object.
Proof. solve_decision. Defined.

(** The native calls the shim makes, in the order it makes them. *)
Inductive event :=
  | NSLog (format : string)
  | SharedApplication
  | SetActivationPolicy (p : NSApplicationActivationPolicy)
  | StatusItemWithLength (si : loc) (length : Z)
  | Retain (o : object)
  | Release (o : object)
  | Dealloc (o : object)
  | SetVisible (si : loc) (b : bool)
  | SetImage (si : loc) (i : option NSImage)
  | SetTitle (si : loc) (s : option string)
  | SetHidden (si : loc) (b : bool)
  | SizeToFit (si : loc)
  | RemoveStatusItem (si : loc)
  | Malloc (h : loc)
  | AllocInit (t : loc)
  | RegisterGlobalRoot (t : loc)
  | RemoveGlobalRoot (t : loc)
  | SetTarget (si : loc) (t : option loc)
  | SetAction (si : loc) (a : option SEL)
  | CamlCallback (closure arg : value).

Record world := World {
  handles : gmap loc TrayHandle;
  items : gmap loc NSStatusItem;
  targets : gmap loc TrayTarget;
  statusBar : list loc;
  global_roots : list loc;
  NSApp : option NSApplicationActivationPolicy;
  trace : list event
}.

Definition empty_world : world :=
  World ∅ ∅ ∅ [] [] None [].

(** Field updates. *)
Definition with_handles (f : gmap loc TrayHandle → gmap loc TrayHandle) (w : world) : world :=
  World (f (handles w)) (items w) (targets w) (statusBar w) (global_roots w) (NSApp w) (trace w).
Definition with_items (f : gmap loc NSStatusItem → gmap loc NSStatusItem) (w : world) : world :=
  World (handles w) (f (items w)) (targets w) (statusBar w) (global_roots w) (NSApp w) (trace w).
Definition with_targets (f : gmap loc TrayTarget → gmap loc TrayTarget) (w : world) : world :=
  World (handles w) (items w) (f (targets w)) (statusBar w) (global_roots w) (NSApp w) (trace w).
Definition with_statusBar (f : list loc → list loc) (w : world) : world :=
  World (handles w) (items w) (targets w) (f (statusBar w)) (global_roots w) (NSApp w) (trace w).
Definition with_global_roots (f : list loc → list loc) (w : world) : world :=
  World (handles w) (items w) (targets w) (statusBar w) (f (global_roots w)) (NSApp w) (trace w).
Definition with_NSApp (a : option NSApplicationActivationPolicy) (w : world) : world :=
  World (handles w) (items w) (targets w) (statusBar w) (global_roots w) a (trace w).
Definition with_trace (f : list event → list event) (w : world) : world :=
  World (handles w) (items w) (targets w) (statusBar w) (global_roots w) (NSApp w) (f (trace w)).

Definition set_button (f : NSStatusBarButton → NSStatusBarButton) (it : NSStatusItem) : NSStatusItem :=
  mkItem (visible it) (f (button it)) (item_refs it).

(** ** The monad of native code *)

Definition M (A : Type) : Type := world → option (A * world).

#[global] Instance M_ret : MRet M := λ A a w, Some (a, w).
#[global] Instance M_bind : MBind M := λ A B f m w,
  match m w with
  | Some (a, w') => f a w'
  | None => None
  end.

(** Undefined behaviour. *)
Definition undefined {A} : M A := λ _, None.

Definition get : M world := λ w, Some (w, w).
Definition modify (f : world → world) : M unit := λ w, Some (tt, f w).
Definition emit (e : event) : M unit := modify (with_trace (λ t, t ++ [e])).

(** The events of a run from [w] to [w']. *)
Definition events_since (w w' : world) : list event :=
  drop (length (trace w)) (trace w').

(** ** Memory and objects *)

(** [handle->field], read: the struct must be allocated. *)
Definition load_handle (l : loc) : M TrayHandle := λ w,
  match handles w !! l with
  | Some h => Some (h, w)
  | None => None
  end.

Definition store_handle (l : loc) (f : TrayHandle → TrayHandle) : M unit :=
  h ← load_handle l;
  modify (with_handles <[l := f h]>).

(** A message to a status item or one of its properties: the object must
    be alive. *)
Definition get_item (si : loc) : M NSStatusItem := λ w,
  match items w !! si with
  | Some it => Some (it, w)
  | None => None
  end.

Definition update_item (si : loc) (f : NSStatusItem → NSStatusItem) : M unit :=
  it ← get_item si;
  modify (with_items <[si := f it]>).

Definition get_target (t : loc) : M TrayTarget := λ w,
  match targets w !! t with
  | Some tg => Some (tg, w)
  | None => None
  end.

Definition update_target (t : loc) (f : TrayTarget → TrayTarget) : M unit :=
  tg ← get_target t;
  modify (with_targets <[t := f tg]>).

(** ** The platform: Foundation, AppKit and the OCaml runtime *)

(** What the shim cannot decide by itself: which C strings Foundation
    decodes as UTF-8, and which files hold an image. *)
Record Platform := {
  utf8_decodes : string → bool;
  contentsOfFile : string → option NSImage
}.

(** The C string that starts at [String_val(v)]: the bytes of the OCaml
    string up to (not including) its first NUL byte. *)
Fixpoint String_val (v : string) : string :=
  match v with
  | EmptyString => EmptyString
  | String c rest =>
      if Ascii.eqb c Ascii.zero then EmptyString else String c (String_val rest)
  end.

Section Foundation.
Variable P : Platform.

(** [[NSString stringWithCString:s encoding:NSUTF8StringEncoding]]: [nil]
    when the bytes do not decode. An [NSString] is represented by its
    UTF-8 bytes. *)
Definition stringWithCString (s : string) : option string :=
  if utf8_decodes P s then Some s else None.

(** [[[NSImage alloc] initWithContentsOfFile:path]]: [nil] for a [nil]
    path and for a file that holds no image. *)
Definition initWithContentsOfFile (path : option string) : option NSImage :=
  match path with
  | Some p => contentsOfFile P p
  | None => None
  end.

Definition mlui_make_image_from_path (image_path : string) : option NSImage :=
  let nsImagePath := stringWithCString image_path in
  let nsImage := initWithContentsOfFile nsImagePath in
  nsImage.
End Foundation.

Definition nslog (format : string) : M unit := emit (NSLog format).

(** [NSLog] prints an object argument ([%@]) by sending it [description]:
    the object must be alive, unless the argument is [nil]. *)
Definition description (o : option loc) : M unit :=
  match o with
  | Some si => _ ← get_item si; mret tt
  | None => mret tt
  end.

(** [[NSApplication sharedApplication]] creates the application object on
    first use. *)
Definition sharedApplication : M unit :=
  emit SharedApplication;;
  modify (λ w, match NSApp w with
               | None => with_NSApp (Some NSApplicationActivationPolicyRegular) w
               | Some _ => w
               end).

Definition setActivationPolicy (p : NSApplicationActivationPolicy) : M unit :=
  emit (SetActivationPolicy p);;
  modify (λ w, match NSApp w with
               | None => w
               | Some _ => with_NSApp (Some p) w
               end).

(** A status item as the status bar hands it out: visible, with a button
    that shows no image and an empty title and has no target or action. The
    caller owns no reference to it yet. *)
Definition new_button : NSStatusBarButton := mkButton None (Some "") false None None.
Definition new_item : NSStatusItem := mkItem true new_button 0.

Definition NSVariableStatusItemLength : Z := -1.

Definition statusItemWithLength (length : Z) : M loc :=
  w ← get;
  let si := fresh (dom (items w)) in
  modify (with_items <[si := new_item]>);;
  modify (with_statusBar (λ b, b ++ [si]));;
  emit (StatusItemWithLength si length);;
  mret si.

Definition removeStatusItem (si : loc) : M unit :=
  _ ← get_item si;
  modify (with_statusBar (filter (λ x, x ≠ si)));;
  emit (RemoveStatusItem si).

Definition retain_item (si : loc) : M unit :=
  update_item si (λ it, mkItem (visible it) (button it) (S (item_refs it)));;
  emit (Retain (ObjItem si)).

(** [release]: the last reference deallocates the object; a status item
    leaves the status bar when it is deallocated. *)
Definition release_item (si : loc) : M unit :=
  it ← get_item si;
  emit (Release (ObjItem si));;
  match item_refs it with
  | O => undefined
  | S O =>
      modify (with_items (delete si));;
      modify (with_statusBar (filter (λ x, x ≠ si)));;
      emit (Dealloc (ObjItem si))
  | S (S n) => modify (with_items <[si := mkItem (visible it) (button it) (S n)]>)
  end.

(** [[[TrayTarget alloc] init]]: [init] clears the callback slot. *)
Definition TrayTarget_alloc_init : M loc :=
  w ← get;
  let t := fresh (dom (targets w)) in
  modify (with_targets <[t := mkTarget 0 1]>);;
  emit (AllocInit t);;
  mret t.

Definition release_target (t : loc) : M unit :=
  tg ← get_target t;
  emit (Release (ObjTarget t));;
  match target_refs tg with
  | O => undefined
  | S O =>
      modify (with_targets (delete t));;
      emit (Dealloc (ObjTarget t))
  | S (S n) => modify (with_targets <[t := mkTarget (callback tg) (S n)]>)
  end.

Definition set_visible (si : loc) (b : bool) : M unit :=
  update_item si (λ it, mkItem b (button it) (item_refs it));;
  emit (SetVisible si b).

Definition set_image (si : loc) (i : option NSImage) : M unit :=
  update_item si (set_button (λ b,
    mkButton i (title b) (isHidden b) (button_target b) (button_action b)));;
  emit (SetImage si i).

Definition set_title (si : loc) (s : option string) : M unit :=
  update_item si (set_button (λ b,
    mkButton (image b) s (isHidden b) (button_target b) (button_action b)));;
  emit (SetTitle si s).

Definition setHidden (si : loc) (h : bool) : M unit :=
  update_item si (set_button (λ b,
    mkButton (image b) (title b) h (button_target b) (button_action b)));;
  emit (SetHidden si h).

Definition set_target (si : loc) (t : option loc) : M unit :=
  update_item si (set_button (λ b,
    mkButton (image b) (title b) (isHidden b) t (button_action b)));;
  emit (SetTarget si t).

Definition set_action (si : loc) (a : option SEL) : M unit :=
  update_item si (set_button (λ b,
    mkButton (image b) (title b) (isHidden b) (button_target b) a));;
  emit (SetAction si a).

Definition sizeToFit (si : loc) : M unit :=
  _ ← get_item si;
  emit (SizeToFit si).

(** The runtime's table of global roots. A root is the address of a
    [callback] slot, named here by the [TrayTarget] that holds the slot. The
    table is kept as a list so that a root registered twice shows; the
    runtime keys its table by address, and the two agree as long as no slot
    is registered twice. *)
Fixpoint remove_first (t : loc) (roots : list loc) : list loc :=
  match roots with
  | [] => []
  | r :: rest => if decide (r = t) then rest else r :: remove_first t rest
  end.

Definition caml_register_global_root (t : loc) : M unit :=
  modify (with_global_roots (λ r, r ++ [t]));;
  emit (RegisterGlobalRoot t).

Definition caml_remove_global_root (t : loc) : M unit :=
  modify (with_global_roots (remove_first t));;
  emit (RemoveGlobalRoot t).

(** [caml_callback(closure, arg)] runs host code; the shim's part is the
    call. The body of the closure is not run here: what it does to the
    world, calls back into this layer included, is no part of the trace or
    of the state that a click leaves in this model. *)
Definition caml_callback (closure arg : value) : M unit :=
  emit (CamlCallback closure arg).

(** [malloc(sizeof(TrayHandle))]; the three fields are assigned right after. *)
Definition malloc_TrayHandle : M loc :=
  w ← get;
  let l := fresh (dom (handles w)) in
  modify (with_handles <[l := mkHandle None None 0]>);;
  emit (Malloc l);;
  mret l.

(** ** The shim *)

(** [- (void)handleClick:(id)sender] *)
Definition handleClick (self : loc) (sender : option loc) : M unit :=
  tg ← get_target self;
  if decide (callback tg ≠ 0) then caml_callback (callback tg) Val_unit
  else mret tt.

Definition mlui_wrap_pointer (p : option loc) : abstract := Abstract p.
Definition mlui_unwrap_pointer (wrapped : abstract) : option loc :=
  Data_abstract_val wrapped.

(** The test [handle && !handle->removed && handle->statusItem] that opens
    three of the primitives, evaluated left to right with C's short
    circuit. It yields the struct's address and its status item when all
    three conjuncts hold. *)
Definition handle_live (handle : option loc) : M (option (loc * loc)) :=
  match handle with
  | None => mret None
  | Some l =>
      h ← load_handle l;
      if decide (removed h = 0) then
        match statusItem h with
        | Some si => mret (Some (l, si))
        | None => mret None
        end
      else mret None
  end.

Section Primitives.
Variable P : Platform.

Definition mlui_tray_make (vImagePath : option string) : M abstract :=
  nslog "[Tray] Creating tray item...";;
  w ← get;
  match NSApp w with
  | None =>
      sharedApplication;;
      setActivationPolicy NSApplicationActivationPolicyAccessory
  | Some _ => sharedApplication
  end;;
  si ← statusItemWithLength NSVariableStatusItemLength;
  retain_item si;;
  description (Some si);;
  nslog "[Tray] Status item created: %@";;
  description (Some si);;
  nslog "[Tray] Button: %@";;
  set_visible si true;;
  match vImagePath with
  | Some path =>
      let imagePath := String_val path in
      match mlui_make_image_from_path P imagePath with
      | Some nsImage =>
          set_image si (Some nsImage);;
          sizeToFit si
      | None => mret tt
      end
  | None =>
      set_title si (Some " ");;
      sizeToFit si
  end;;
  handle ← malloc_TrayHandle;
  store_handle handle (λ h, mkHandle (Some si) (target h) (removed h));;
  store_handle handle (λ h, mkHandle (statusItem h) None (removed h));;
  store_handle handle (λ h, mkHandle (statusItem h) (target h) 0);;
  nslog "[Tray] Handle created: %p";;
  mret (mlui_wrap_pointer (Some handle)).

Definition mlui_tray_set_title (vTrayHandle : abstract) (vTitle : string) : M abstract :=
  let handle := mlui_unwrap_pointer vTrayHandle in
  nslog "[Tray] set_title called, handle: %p";;
  live ← handle_live handle;
  match live with
  | Some (l, si) =>
      let title := String_val vTitle in
      let nsTitle := stringWithCString P title in
      nslog "[Tray] Setting title to: %@";;
      description (Some si);;
      nslog "[Tray] Button before: %@";;
      set_image si None;;
      set_title si nsTitle;;
      setHidden si false;;
      set_visible si true;;
      sizeToFit si;;
      description (Some si);;
      nslog "[Tray] Button after: %@, title: %@"
  | None =>
      match handle with
      | Some l => h ← load_handle l; description (statusItem h)
      | None => description None
      end;;
      nslog "[Tray] set_title failed - handle: %p, removed: %d, statusItem: %@"
  end;;
  mret vTrayHandle.
End Primitives.

Definition mlui_tray_remove (vTrayHandle : abstract) : M value :=
  let handle := mlui_unwrap_pointer vTrayHandle in
  live ← handle_live handle;
  match live with
  | Some (l, si) =>
      removeStatusItem si;;
      release_item si;;
      h ← load_handle l;
      match target h with
      | Some t =>
          tg ← get_target t;
          (if decide (callback tg ≠ 0) then
             caml_remove_global_root t;;
             update_target t (λ tg, mkTarget 0 (target_refs tg))
           else mret tt);;
          release_target t;;
          store_handle l (λ h, mkHandle (statusItem h) None (removed h))
      | None => mret tt
      end;;
      store_handle l (λ h, mkHandle None (target h) (removed h));;
      store_handle l (λ h, mkHandle (statusItem h) (target h) 1)
  | None => mret tt
  end;;
  mret Val_unit.

Definition mlui_tray_set_on_click (vTrayHandle : abstract) (vCallback : value) : M value :=
  let handle := mlui_unwrap_pointer vTrayHandle in
  live ← handle_live handle;
  match live with
  | Some (l, si) =>
      h ← load_handle l;
      t ← match target h with
          | None =>
              t ← TrayTarget_alloc_init;
              store_handle l (λ h, mkHandle (statusItem h) (Some t) (removed h));;
              mret t
          | Some t => mret t
          end;
      tg ← get_target t;
      (if decide (callback tg ≠ 0) then caml_remove_global_root t else mret tt);;
      update_target t (λ tg, mkTarget vCallback (target_refs tg));;
      caml_register_global_root t;;
      set_target si (Some t);;
      set_action si (Some sel_handleClick);;
      nslog "[Tray] Click handler set"
  | None => mret tt
  end;;
  mret Val_unit.

(** A click on a status item, as AppKit delivers it: the button sends its
    action to its target. *)
Definition click (si : loc) : M unit :=
  it ← get_item si;
  match button_target (button it), button_action (button it) with
  | Some t, Some sel_handleClick => handleClick t (Some si)
  | _, _ => mret tt
  end.

(** The three operations a caller can apply to a handle it holds, and runs
    of several of them on the same handle. *)
Inductive tray_op :=
  | OpSetTitle (vTitle : string)
  | OpSetOnClick (vCallback : value)
  | OpRemove.

Definition run_op (P : Platform) (v : abstract) (o : tray_op) : M unit :=
  match o with
  | OpSetTitle s => mlui_tray_set_title P v s;; mret tt
  | OpSetOnClick cb => mlui_tray_set_on_click v cb;; mret tt
  | OpRemove => mlui_tray_remove v;; mret tt
  end.

Fixpoint run_ops (P : Platform) (v : abstract) (os : list tray_op) : M unit :=
  match os with
  | [] => mret tt
  | o :: rest => run_op P v o;; run_ops P v rest
  end.

(** ** Vocabulary of the statements *)

(** Everything but logging counts as an action on a native resource. *)
Definition is_native (e : event) : bool :=
  match e with
  | NSLog _ => false
  | _ => true
  end.

Definition native_actions (evs : list event) : list event :=
  List.filter is_native evs.

(** Two worlds that differ at most by their trace. *)
Definition same_state (w w' : world) : Prop :=
  handles w' = handles w ∧ items w' = items w ∧ targets w' = targets w ∧
  statusBar w' = statusBar w ∧ global_roots w' = global_roots w ∧
  NSApp w' = NSApp w.

(** A run that only logs: the state is the same and the trace grows by
    events that are not native actions. *)
Definition quiet (w w' : world) : Prop :=
  same_state w w' ∧ ∃ evs, trace w' = trace w ++ evs ∧ native_actions evs = [].

(** A handle pointer on which the opening test of the primitives fails:
    [NULL], or a struct whose [statusItem] is [nil], or one whose [removed]
    flag is set (whose status item, when the pointer was not cleared, is
    still an object). *)
Definition inert (w : world) (p : option loc) : Prop :=
  match p with
  | None => True
  | Some l =>
      ∃ h, handles w !! l = Some h ∧
           match statusItem h with
           | Some si => removed h ≠ 0 ∧ is_Some (items w !! si)
           | None => True
           end
  end.

(** The Live state: handle [l] is allocated, not removed, and owns the
    status item [si]; the click adapter, when there is one, is alive and
    owned too. *)
Definition live (w : world) (l si : loc) : Prop :=
  ∃ h it,
    handles w !! l = Some h ∧ removed h = 0 ∧ statusItem h = Some si ∧
    items w !! si = Some it ∧ (0 < item_refs it)%nat ∧
    ∀ t, target h = Some t →
         ∃ tg, targets w !! t = Some tg ∧ (0 < target_refs tg)%nat.

(** What a status item shows. *)
Definition shown_image (w : world) (si : loc) : option (option NSImage) :=
  image ∘ button <$> items w !! si.
Definition shown_title (w : world) (si : loc) : option (option string) :=
  title ∘ button <$> items w !! si.

Fixpoint NUL_free (s : string) : bool :=
  match s with
  | EmptyString => true
  | String c rest => negb (Ascii.eqb c Ascii.zero) && NUL_free rest
  end.

(** Counting in a trace. *)
Definition is_release_of (o : object) (e : event) : bool :=
  match e with
  | Release o' => bool_decide (o' = o)
  | _ => false
  end.

Definition is_root_removal_of (t : loc) (e : event) : bool :=
  match e with
  | RemoveGlobalRoot t' => bool_decide (t' = t)
  | _ => false
  end.

Definition is_callback_of (closure : value) (e : event) : bool :=
  match e with
  | CamlCallback c _ => bool_decide (c = closure)
  | _ => false
  end.

Definition count (p : event → bool) (evs : list event) : nat :=
  length (List.filter p evs).

(** How many times the slot of [t] is registered as a global root. *)
Definition root_count (t : loc) (roots : list loc) : nat :=
  length (List.filter (λ r, bool_decide (r = t)) roots).

(** The pinning discipline: the slot of a click adapter is registered
    exactly once while it holds a callback, and not at all otherwise. *)
Definition roots_ok (w : world) : Prop :=
  ∀ t, root_count t (global_roots w) =
       match targets w !! t with
       | Some tg => if decide (callback tg = 0) then 0%nat else 1%nat
       | None => 0%nat
       end.

(** The button a call of [mlui_tray_make] leaves behind. *)
Definition made_button (P : Platform) (vImagePath : option string) : NSStatusBarButton :=
  match vImagePath with
  | Some path =>
      match mlui_make_image_from_path P (String_val path) with
      | Some nsImage => mkButton (Some nsImage) (Some "") false None None
      | None => new_button
      end
  | None => mkButton None (Some " ") false None None
  end.

Definition is_content_change (e : event) : bool :=
  match e with
  | SetImage _ _ | SetTitle _ _ => true
  | _ => false
  end.

(** The click adapter [mlui_tray_set_on_click] works on: the one the handle
    has, or the one it is about to allocate. *)
Definition click_target (w : world) (h : TrayHandle) : loc :=
  match target h with
  | Some t => t
  | None => fresh (dom (targets w))
  end.

(** The callback a handle holds ([0] for none), and the references it owns
    to its click adapter (one, once allocated). *)
Definition pinned (w : world) (h : TrayHandle) : value :=
  match target h with
  | Some t => from_option callback 0 (targets w !! t)
  | None => 0
  end.

Definition adapter_refs (w : world) (h : TrayHandle) : nat :=
  match target h with
  | Some t => from_option target_refs 1%nat (targets w !! t)
  | None => 1%nat
  end.

(** The handles a caller can hold: dead ones and live ones. *)
Definition usable (w : world) (v : abstract) : Prop :=
  inert w (mlui_unwrap_pointer v) ∨
  ∃ l si, mlui_unwrap_pointer v = Some l ∧ live w l si.

(** ** What a host program can reach *)

(** The calls of a host program: the four primitives, and the clicks that
    AppKit delivers for it. *)
Inductive api_call :=
  | CallMake (vImagePath : option string)
  | CallSetTitle (v : abstract) (vTitle : string)
  | CallSetOnClick (v : abstract) (vCallback : value)
  | CallRemove (v : abstract)
  | Click (si : loc).

Definition run_call (P : Platform) (c : api_call) : M unit :=
  match c with
  | CallMake vImagePath => mlui_tray_make P vImagePath;; mret tt
  | CallSetTitle v vTitle => mlui_tray_set_title P v vTitle;; mret tt
  | CallSetOnClick v vCallback => mlui_tray_set_on_click v vCallback;; mret tt
  | CallRemove v => mlui_tray_remove v;; mret tt
  | Click si => click si
  end.

(** What the host can pass: a handle is one that [mlui_tray_make] returned
    (the struct is never freed), a callback is an OCaml value, and only an
    item of the status bar can be clicked. *)
Definition made_handle (w : world) (v : abstract) : Prop :=
  ∃ l, mlui_unwrap_pointer v = Some l ∧ is_Some (handles w !! l).

Definition admissible (w : world) (c : api_call) : Prop :=
  match c with
  | CallMake _ => True
  | CallSetTitle v _ => made_handle w v
  | CallSetOnClick v vCallback => made_handle w v ∧ vCallback ≠ 0
  | CallRemove v => made_handle w v
  | Click si => si ∈ statusBar w
  end.

Inductive reachable (P : Platform) : world → Prop :=
  | reachable_start : reachable P empty_world
  | reachable_call w c w' :
      reachable P w → admissible w c → run_call P c w = Some (tt, w') →
      reachable P w'.

(** The handle struct that [mlui_tray_remove] leaves behind. *)
Definition dead_struct : TrayHandle := mkHandle None None 1.

(** A struct that owns its objects: one reference to its status item,
    whose button targets nothing but the struct's click adapter, and one
    reference to that adapter. *)
Definition owning (w : world) (h : TrayHandle) : Prop :=
  removed h = 0 ∧
  ∃ si it,
    statusItem h = Some si ∧ items w !! si = Some it ∧
    item_refs it = 1%nat ∧
    (∀ t, button_target (button it) = Some t → target h = Some t) ∧
    (∀ t, target h = Some t →
          ∃ tg, targets w !! t = Some tg ∧ target_refs tg = 1%nat).

(** The invariant of the worlds a host can reach. *)
Record wf (w : world) : Prop := {
  wf_handle : ∀ l h, handles w !! l = Some h → h = dead_struct ∨ owning w h;
  wf_item_owner : ∀ si, is_Some (items w !! si) →
    ∃ l h, handles w !! l = Some h ∧ statusItem h = Some si;
  wf_target_owner : ∀ t, is_Some (targets w !! t) →
    ∃ l h, handles w !! l = Some h ∧ target h = Some t;
  wf_item_inj : ∀ l1 l2 h1 h2 si,
    handles w !! l1 = Some h1 → handles w !! l2 = Some h2 →
    statusItem h1 = Some si → statusItem h2 = Some si → l1 = l2;
  wf_target_inj : ∀ l1 l2 h1 h2 t,
    handles w !! l1 = Some h1 → handles w !! l2 = Some h2 →
    target h1 = Some t → target h2 = Some t → l1 = l2;
  wf_bar : ∀ si, si ∈ statusBar w → is_Some (items w !! si);
  wf_roots : roots_ok w
}.

(** ** Examples *)

Fixpoint ascii_only (s : string) : bool :=
  match s with
  | EmptyString => true
  | String c rest => bool_decide (Ascii.nat_of_ascii c < 128)%nat && ascii_only rest
  end.

(** A platform for running examples: pure-ASCII strings decode, and the
    only image file is [/icons/tray.png]. *)
Definition demo_platform : Platform :=
  {| utf8_decodes := ascii_only;
     contentsOfFile := λ p, if String.eqb p "/icons/tray.png" then Some "tray.png" else None |}.

(** Worlds to run examples in: a tray made without an image, the same
    with a click handler, and the same once removed. *)
Definition run_from {A} (m : M A) (w : world) : world :=
  match m w with
  | Some (_, w') => w'
  | None => w
  end.

Definition handle1 : abstract := Abstract (Some 1%positive).
Definition world_made : world :=
  Eval vm_compute in run_from (mlui_tray_make demo_platform None) empty_world.
Definition world_clickable : world :=
  Eval vm_compute in run_from (mlui_tray_set_on_click handle1 8) world_made.
Definition world_removed : world :=
  Eval vm_compute in run_from (mlui_tray_remove handle1) world_clickable.

(** An adapter as [init] leaves it, before any callback is stored. *)
Definition world_adapter : world :=
  Eval vm_compute in run_from TrayTarget_alloc_init empty_world.


(** A title with a NUL byte in the middle. *)
Definition text_with_NUL : string := "a" +:+ String Ascii.zero "b".

(** ** More vocabulary *)

Definition is_alloc_init (e : event) : bool :=
  match e with
  | AllocInit _ => true
  | _ => false
  end.

Definition is_set_policy (e : event) : bool :=
  match e with
  | SetActivationPolicy _ => true
  | _ => false
  end.

Definition is_size_to_fit (e : event) : bool :=
  match e with
  | SizeToFit _ => true
  | _ => false
  end.

(** All that a status item displays: image, title, hidden, visible. *)
Definition shown (w : world) (si : loc)
  : option (option NSImage * option string * bool * bool) :=
  (λ it, (image (button it), title (button it), isHidden (button it), visible it))
    <$> items w !! si.


(** Every tray that was made has been removed. *)
Definition all_removed (w : world) : Prop :=
  ∀ l h, handles w !! l = Some h → h = dead_struct.

(** Every tray that is not removed is presented: its status item is on
    the status bar, visible, with a button that is not hidden. *)
Definition presented (w : world) : Prop :=
  ∀ l h si, handles w !! l = Some h → statusItem h = Some si →
    si ∈ statusBar w ∧
    ∃ it, items w !! si = Some it ∧ visible it = true ∧
          isHidden (button it) = false.

(** A second tray, made with an image while the first one is clickable. *)
Definition handle2 : abstract := Abstract (Some 2%positive).
Definition world_two : world :=
  Eval vm_compute in
    run_from (mlui_tray_make demo_platform (Some "/icons/tray.png")) world_clickable.

(** ** Symbolic execution *)

(** Unfold the primitives down to matches on map lookups. *)
Ltac munfold :=
  unfold mlui_tray_set_on_click, mlui_tray_remove, mlui_tray_set_title,
    mlui_tray_make, handle_live, click, handleClick, description,
    sharedApplication,
    setActivationPolicy, statusItemWithLength, removeStatusItem, retain_item,
    release_item, TrayTarget_alloc_init, release_target, set_visible,
    set_image, set_title, setHidden, set_target, set_action, sizeToFit,
    caml_register_global_root, caml_remove_global_root, caml_callback,
    malloc_TrayHandle, store_handle, update_item, update_target, load_handle,
    get_item, get_target, nslog, emit, modify, get, undefined,
    mlui_wrap_pointer, mlui_unwrap_pointer;
  unfold mbind, mret, M_bind, M_ret.

(** Project fields out of updated worlds and records. *)
Ltac msimpl :=
  cbn [with_handles with_items with_targets with_statusBar with_global_roots
       with_NSApp with_trace handles items targets statusBar global_roots
       NSApp trace statusItem target removed callback target_refs visible
       button item_refs image title isHidden button_target button_action
       set_button Data_abstract_val].

(** Resolve one lookup or one test from what is known. *)
Ltac mside := first [assumption | congruence | (intro; congruence)].

Ltac mstep :=
  first
    [ rewrite lookup_insert_eq
    | rewrite lookup_insert_ne by congruence
    | rewrite decide_True by mside
    | rewrite decide_False by mside
    | match goal with
      | H : ?m !! ?k = _ |- context [?m !! ?k] => rewrite H
      | H : ?x = _ |- context [match ?x with _ => _ end] => rewrite H
      end ].

Ltac mrun := munfold; repeat (progress (msimpl; try mstep)).

(** ** The monad and the trace *)

Lemma bind_Some {A B} (m : M A) (f : A → M B) w a w1 :
  m w = Some (a, w1) → (m ≫= f) w = f a w1.
Proof. intros H. unfold mbind, M_bind. by rewrite H. Qed.

Lemma bind_inv {A B} (m : M A) (f : A → M B) w b w2 :
  (m ≫= f) w = Some (b, w2) →
  ∃ a w1, m w = Some (a, w1) ∧ f a w1 = Some (b, w2).
Proof.
  unfold mbind, M_bind. destruct (m w) as [[a w1]|]; [|done].
  intros H. by exists a, w1.
Qed.

Lemma events_since_refl w : events_since w w = [].
Proof. unfold events_since. by rewrite drop_all. Qed.

Lemma events_since_app w w' evs :
  trace w' = trace w ++ evs → events_since w w' = evs.
Proof. intros H. unfold events_since. rewrite H. apply drop_app_length. Qed.

(** Read the events of a run off the final trace. *)
Ltac since :=
  erewrite events_since_app; [|msimpl; rewrite <- ?app_assoc; reflexivity].

Lemma same_state_refl w : same_state w w.
Proof. by repeat split. Qed.

Lemma same_state_trans w1 w2 w3 :
  same_state w1 w2 → same_state w2 w3 → same_state w1 w3.
Proof.
  unfold same_state. intros (?&?&?&?&?&?) (?&?&?&?&?&?).
  repeat split; congruence.
Qed.

Lemma native_actions_app evs1 evs2 :
  native_actions (evs1 ++ evs2) = native_actions evs1 ++ native_actions evs2.
Proof. apply List.filter_app. Qed.

Lemma quiet_refl w : quiet w w.
Proof.
  split; [apply same_state_refl|]. exists []. by rewrite app_nil_r.
Qed.

Lemma quiet_trans w1 w2 w3 : quiet w1 w2 → quiet w2 w3 → quiet w1 w3.
Proof.
  intros [S12 (e12 & T12 & N12)] [S23 (e23 & T23 & N23)].
  split; [by eapply same_state_trans|].
  exists (e12 ++ e23). split.
  - by rewrite T23, T12, app_assoc.
  - by rewrite native_actions_app, N12, N23.
Qed.

Lemma quiet_no_native w w' :
  quiet w w' → native_actions (events_since w w') = [].
Proof. intros [_ (evs & T & N)]. by rewrite (events_since_app _ _ _ T). Qed.

(** ** Handles that fail the opening test *)

Lemma handle_live_inert w p : inert w p → handle_live p w = Some (None, w).
Proof.
  destruct p as [l|]; [|done].
  intros (h & Hh & Hdead). unfold handle_live.
  erewrite bind_Some; [|by unfold load_handle; rewrite Hh].
  destruct (decide (removed h = 0)) as [Hz|]; [|done].
  destruct (statusItem h) as [si|]; [|done]. by destruct Hdead.
Qed.

Lemma description_inert w l h :
  handles w !! l = Some h →
  match statusItem h with
  | Some si => removed h ≠ 0 ∧ is_Some (items w !! si)
  | None => True
  end →
  (h ← load_handle l; description (statusItem h)) w = Some (tt, w).
Proof.
  intros Hh Hdead.
  erewrite bind_Some; [|by unfold load_handle; rewrite Hh].
  destruct (statusItem h) as [si|]; [|done].
  destruct Hdead as [_ [it Hit]]. unfold description.
  by erewrite bind_Some; [|by unfold get_item; rewrite Hit].
Qed.

Lemma remove_inert w v :
  inert w (mlui_unwrap_pointer v) → mlui_tray_remove v w = Some (Val_unit, w).
Proof.
  intros Hi. unfold mlui_tray_remove. cbv zeta.
  by erewrite bind_Some; [|by apply handle_live_inert].
Qed.

Lemma set_on_click_inert w v cb :
  inert w (mlui_unwrap_pointer v) →
  mlui_tray_set_on_click v cb w = Some (Val_unit, w).
Proof.
  intros Hi. unfold mlui_tray_set_on_click. cbv zeta.
  by erewrite bind_Some; [|by apply handle_live_inert].
Qed.

Lemma set_title_inert P w v s :
  inert w (mlui_unwrap_pointer v) →
  ∃ w', mlui_tray_set_title P v s w = Some (v, w') ∧ quiet w w'.
Proof.
  intros Hi. unfold mlui_tray_set_title. cbv zeta.
  erewrite bind_Some; [|reflexivity].
  erewrite bind_Some; [|apply handle_live_inert; exact Hi].
  erewrite bind_Some; [|erewrite bind_Some; [reflexivity|]].
  2: { destruct (mlui_unwrap_pointer v) as [l|]; [|reflexivity].
       destruct Hi as (h & Hh & Hdead). by apply (description_inert _ l h). }
  eexists. split; [reflexivity|]. split; [by repeat split|].
  exists [NSLog "[Tray] set_title called, handle: %p";
          NSLog "[Tray] set_title failed - handle: %p, removed: %d, statusItem: %@"].
  split; [|reflexivity]. msimpl. by rewrite <- app_assoc.
Qed.

Lemma inert_same_state w w' p : same_state w w' → inert w p → inert w' p.
Proof.
  intros (Hh & Hit & _) Hi. destruct p as [l|]; [|done].
  unfold inert in *. by rewrite Hh, Hit.
Qed.

Lemma run_op_inert P w v o :
  inert w (mlui_unwrap_pointer v) →
  ∃ w', run_op P v o w = Some (tt, w') ∧ quiet w w'.
Proof.
  intros Hi. destruct o as [s|cb|]; unfold run_op.
  - destruct (set_title_inert P w v s Hi) as (w' & Hrun & Hq).
    exists w'. split; [|done]. by erewrite bind_Some.
  - exists w. split; [|apply quiet_refl].
    erewrite bind_Some; [done|]. by apply set_on_click_inert.
  - exists w. split; [|apply quiet_refl].
    erewrite bind_Some; [done|]. by apply remove_inert.
Qed.

Lemma run_ops_inert P v ops : ∀ w,
  inert w (mlui_unwrap_pointer v) →
  ∃ w', run_ops P v ops w = Some (tt, w') ∧ quiet w w'.
Proof.
  induction ops as [|o ops IH]; intros w Hi.
  - exists w. split; [done|apply quiet_refl].
  - destruct (run_op_inert P w v o Hi) as (w1 & Hrun1 & Hq1).
    destruct (IH w1) as (w2 & Hrun2 & Hq2).
    { eapply inert_same_state; [apply Hq1|done]. }
    exists w2. split; [|by eapply quiet_trans].
    cbn [run_ops]. by erewrite bind_Some.
Qed.

(** ** Removed handles *)

(** C1. Once the [removed] flag of a handle is set (its status item
    pointer being nil, as [mlui_tray_remove] leaves it, or else still an
    object), [mlui_tray_remove] and [mlui_tray_set_on_click] return with
    the world exactly as it was, [mlui_tray_set_title] returns the handle
    having done nothing but log, and so does every run of these
    operations: the handle struct (status item, target, flag), the click
    adapters with their callbacks, the status items, the status bar and the
    global roots are unchanged, no native call is made, and the flag stays
    set. *)
Theorem removed_handle_is_inert P w v l h :
  mlui_unwrap_pointer v = Some l →
  handles w !! l = Some h →
  removed h ≠ 0 →
  (∀ si, statusItem h = Some si → is_Some (items w !! si)) →
  mlui_tray_remove v w = Some (Val_unit, w) ∧
  (∀ cb, mlui_tray_set_on_click v cb w = Some (Val_unit, w)) ∧
  (∀ s, ∃ w', mlui_tray_set_title P v s w = Some (v, w') ∧
              same_state w w' ∧ native_actions (events_since w w') = []) ∧
  (∀ ops, ∃ w', run_ops P v ops w = Some (tt, w') ∧
                same_state w w' ∧ native_actions (events_since w w') = [] ∧
                handles w' !! l = Some h).
Proof.
  intros Hv Hh Hr Hsi.
  assert (Hi : inert w (mlui_unwrap_pointer v)).
  { rewrite Hv. exists h. split; [done|].
    destruct (statusItem h) as [si|]; [|done]. split; [done|]. by apply Hsi. }
  split; [by apply remove_inert|].
  split; [intros cb; by apply set_on_click_inert|].
  split.
  - intros s. destruct (set_title_inert P w v s Hi) as (w' & Hrun & Hq).
    exists w'. split; [done|]. split; [apply Hq|by apply quiet_no_native].
  - intros ops. destruct (run_ops_inert P v ops w Hi) as (w' & Hrun & Hq).
    exists w'. split; [done|]. split; [apply Hq|].
    split; [by apply quiet_no_native|].
    destruct Hq as [(Hhs & _) _]. by rewrite Hhs.
Qed.

(** ** Null and otherwise dead handles *)

(** Where the three tests are enough: on a null pointer, on a struct
    whose status item is nil, and on a flagged struct whose status item is
    nil or still an object, every operation is defined and does nothing:
    [mlui_tray_remove] and [mlui_tray_set_on_click] leave the world as it
    was, and [mlui_tray_set_title] only logs and hands the handle back. *)
Theorem dead_handle_is_tolerated P w v :
  inert w (mlui_unwrap_pointer v) →
  mlui_tray_remove v w = Some (Val_unit, w) ∧
  (∀ cb, mlui_tray_set_on_click v cb w = Some (Val_unit, w)) ∧
  (∀ s, ∃ w', mlui_tray_set_title P v s w = Some (v, w') ∧
              same_state w w' ∧ native_actions (events_since w w') = []).
Proof.
  intros Hi. repeat split.
  - by apply remove_inert.
  - intros cb. by apply set_on_click_inert.
  - intros s. destruct (set_title_inert P w v s Hi) as (w' & Hrun & Hq).
    exists w'. split; [done|]. split; [apply Hq|by apply quiet_no_native].
Qed.



(** ** Click delivery *)

Lemma handleClick_empty_slot w t tg sender :
  targets w !! t = Some tg → callback tg = 0 →
  handleClick t sender w = Some (tt, w).
Proof.
  intros Ht Hcb. unfold handleClick, get_target. unfold mbind, M_bind.
  rewrite Ht. destruct (decide (callback tg ≠ 0)); [congruence|done].
Qed.

Lemma click_empty_slot w si it t tg :
  items w !! si = Some it → button_target (button it) = Some t →
  targets w !! t = Some tg → callback tg = 0 →
  click si w = Some (tt, w).
Proof.
  intros Hit Hbt Ht Hcb. unfold click.
  erewrite bind_Some; [|by unfold get_item; rewrite Hit].
  rewrite Hbt. destruct (button_action (button it)) as [[]|]; [|done].
  by eapply handleClick_empty_slot.
Qed.

(** C7. With an empty callback slot, [handleClick:] calls nothing and
    returns with the world as it was, and so does a click that AppKit
    routes to that adapter. *)
Theorem click_without_callback_is_discarded w t tg :
  targets w !! t = Some tg →
  callback tg = 0 →
  (∀ sender, handleClick t sender w = Some (tt, w)) ∧
  ∀ si it, items w !! si = Some it →
           button_target (button it) = Some t →
           click si w = Some (tt, w).
Proof.
  intros Ht Hcb. split.
  - intros sender. by eapply handleClick_empty_slot.
  - intros si it Hit Hbt. by eapply click_empty_slot.
Qed.

(** ** Creation *)

(** What [mlui_tray_make] does, whatever the platform, the argument and the
    world: it always returns, with a new handle on a new status item. *)
Lemma make_run P vImagePath w :
  let si := fresh (dom (items w)) in
  let l := fresh (dom (handles w)) in
  ∃ w',
    mlui_tray_make P vImagePath w = Some (Abstract (Some l), w') ∧
    handles w' = <[l := mkHandle (Some si) None 0]> (handles w) ∧
    items w' = <[si := mkItem true (made_button P vImagePath) 1]> (items w) ∧
    targets w' = targets w ∧
    global_roots w' = global_roots w ∧
    statusBar w' = statusBar w ++ [si] ∧
    count is_content_change (events_since w w') =
      match vImagePath with
      | Some path => if mlui_make_image_from_path P (String_val path) is Some _ then 1%nat else 0%nat
      | None => 1%nat
      end.
Proof.
  intros si l. unfold made_button.
  destruct (NSApp w) as [pol|] eqn:Happ;
    destruct vImagePath as [path|];
    [destruct (mlui_make_image_from_path P (String_val path)) as [img|] eqn:Himg| |
     destruct (mlui_make_image_from_path P (String_val path)) as [img|] eqn:Himg| ].
  all: eexists; split; [mrun; reflexivity|].
  all: msimpl; rewrite !insert_insert_eq.
  all: repeat split.
  all: since.
  all: reflexivity.
Qed.

Lemma make_live P vImagePath w w' l si :
  handles w' = <[l := mkHandle (Some si) None 0]> (handles w) →
  items w' = <[si := mkItem true (made_button P vImagePath) 1]> (items w) →
  live w' l si.
Proof.
  intros Hh Hi. eexists _, _. rewrite Hh, Hi, !lookup_insert_eq.
  repeat split; try done. cbn. lia.
Qed.

(** C4. Called without an image path, [mlui_tray_make] always returns: a
    handle that was not allocated before, in the Live state with its
    [removed] flag clear, on a visible status item of the status bar whose
    button shows no image and the one-character title [" "]. *)
Theorem make_without_image_shows_placeholder P w :
  ∃ l si w',
    mlui_tray_make P None w = Some (Abstract (Some l), w') ∧
    handles w !! l = None ∧
    handles w' !! l = Some (mkHandle (Some si) None 0) ∧
    live w' l si ∧
    shown_image w' si = Some None ∧
    shown_title w' si = Some (Some " ") ∧
    String.length " " = 1%nat ∧
    visible <$> items w' !! si = Some true ∧
    si ∈ statusBar w'.
Proof.
  destruct (make_run P None w) as (w' & Hrun & Hh & Hi & _ & _ & Hbar & _).
  exists (fresh (dom (handles w))), (fresh (dom (items w))), w'.
  split; [done|].
  split; [apply not_elem_of_dom, is_fresh|].
  split; [by rewrite Hh, lookup_insert_eq|].
  split; [by eapply make_live|].
  unfold shown_image, shown_title. rewrite Hi, lookup_insert_eq, Hbar.
  repeat split. set_solver.
Qed.

(** C5. When the image of the given path does not load, [mlui_tray_make]
    still returns, and returns a Live handle: its status item carries no
    image and is just a new status item, retained once and made visible;
    the call neither sets an image nor a title. *)
Theorem make_with_unloadable_image_falls_back P w path :
  mlui_make_image_from_path P (String_val path) = None →
  ∃ l si w',
    mlui_tray_make P (Some path) w = Some (Abstract (Some l), w') ∧
    handles w' !! l = Some (mkHandle (Some si) None 0) ∧
    live w' l si ∧
    shown_image w' si = Some None ∧
    items w' !! si = Some (mkItem true new_button 1) ∧
    count is_content_change (events_since w w') = 0%nat.
Proof.
  intros Hload.
  destruct (make_run P (Some path) w) as (w' & Hrun & Hh & Hi & _ & _ & _ & Hev).
  exists (fresh (dom (handles w))), (fresh (dom (items w))), w'.
  split; [done|].
  split; [by rewrite Hh, lookup_insert_eq|].
  split; [by eapply make_live|].
  unfold shown_image. unfold made_button in Hi. rewrite Hload in Hi, Hev.
  by rewrite Hi, lookup_insert_eq.
Qed.

(** C9. When the image of the given path does not load, the status item
    that [mlui_tray_make] hands out shows nothing: no image, and the empty
    title of a new status item, where the call without a path installs the
    title [" "]. *)
Theorem make_with_unloadable_image_shows_nothing P w path :
  mlui_make_image_from_path P (String_val path) = None →
  ∃ l si w',
    mlui_tray_make P (Some path) w = Some (Abstract (Some l), w') ∧
    handles w' !! l = Some (mkHandle (Some si) None 0) ∧
    shown_image w' si = Some None ∧
    shown_title w' si = Some (Some "") ∧
    (∀ w0, mlui_tray_make P None w = Some (Abstract (Some l), w0) →
           shown_title w0 si = Some (Some " ")).
Proof.
  intros Hload.
  destruct (make_run P (Some path) w) as (w' & Hrun & Hh & Hi & _).
  exists (fresh (dom (handles w))), (fresh (dom (items w))), w'.
  split; [done|].
  split; [by rewrite Hh, lookup_insert_eq|].
  unfold shown_image, shown_title. unfold made_button in Hi.
  rewrite Hload in Hi. rewrite Hi, lookup_insert_eq.
  repeat split.
  intros w0 Hrun0.
  destruct (make_run P None w) as (w0' & Hrun0' & _ & Hi0 & _).
  rewrite Hrun0 in Hrun0'. injection Hrun0' as <-.
  by rewrite Hi0, lookup_insert_eq.
Qed.

(** ** Titles *)

Lemma String_val_NUL_free s : NUL_free s = true → String_val s = s.
Proof.
  induction s as [|c s IH]; [done|]. cbn.
  destruct (Ascii.eqb c Ascii.zero); [done|]. cbn. intros H. by rewrite IH.
Qed.

(** What [mlui_tray_set_title] does to a live handle. *)
Lemma set_title_run P w v l si s :
  mlui_unwrap_pointer v = Some l →
  live w l si →
  ∃ it w',
    items w !! si = Some it ∧
    mlui_tray_set_title P v s w = Some (v, w') ∧
    handles w' = handles w ∧
    targets w' = targets w ∧
    global_roots w' = global_roots w ∧
    statusBar w' = statusBar w ∧
    NSApp w' = NSApp w ∧
    items w' =
      <[si := mkItem true
                (mkButton None (stringWithCString P (String_val s)) false
                   (button_target (button it)) (button_action (button it)))
                (item_refs it)]> (items w) ∧
    native_actions (events_since w w') =
      [SetImage si None; SetTitle si (stringWithCString P (String_val s));
       SetHidden si false; SetVisible si true; SizeToFit si].
Proof.
  intros Hv (h & it & Hh & Hr & Hs & Hi & _). destruct v as [p]. cbn in Hv. subst p.
  eexists it, _. split; [done|].
  split; [mrun; reflexivity|].
  msimpl. rewrite !insert_insert_eq. repeat split.
  since. reflexivity.
Qed.

Lemma set_title_live w w' l si it b :
  live w l si →
  handles w' = handles w → targets w' = targets w →
  items w !! si = Some it →
  items w' = <[si := mkItem true b (item_refs it)]> (items w) →
  live w' l si.
Proof.
  intros (h & it0 & Hh & Hr & Hs & Hi & Hrefs & Ht) Hhs Hts Hit Hits.
  exists h, (mkItem true b (item_refs it)).
  rewrite Hhs, Hts, Hits, lookup_insert_eq.
  repeat split; try done. cbn. congruence.
Qed.

(** The title a live handle shows after [mlui_tray_set_title], for any
    text: what Foundation decodes from the bytes before the first NUL. *)
Lemma set_title_shows_decoded_prefix P w v l si s :
  mlui_unwrap_pointer v = Some l →
  live w l si →
  ∃ w', mlui_tray_set_title P v s w = Some (v, w') ∧
        shown_title w' si = Some (stringWithCString P (String_val s)).
Proof.
  intros Hv Hl.
  destruct (set_title_run P w v l si s Hv Hl) as (it & w' & _ & Hrun & Hrest).
  exists w'. split; [done|].
  destruct Hrest as (_ & _ & _ & _ & _ & Hi & _).
  unfold shown_title. by rewrite Hi, lookup_insert_eq.
Qed.

(** Whatever Foundation decodes, a text with a NUL byte is not the title
    shown, and bytes that do not decode leave a nil title. *)
Lemma set_title_cuts_at_NUL P w v l si :
  mlui_unwrap_pointer v = Some l →
  live w l si →
  ∃ w', mlui_tray_set_title P v text_with_NUL w = Some (v, w') ∧
        shown_title w' si ≠ Some (Some text_with_NUL).
Proof.
  intros Hv Hl.
  destruct (set_title_shows_decoded_prefix P w v l si text_with_NUL Hv Hl)
    as (w' & Hrun & Htitle).
  exists w'. split; [done|]. rewrite Htitle. unfold stringWithCString.
  change (String_val text_with_NUL) with "a".
  destruct (utf8_decodes P "a"); intros [=].
Qed.

Lemma set_title_undecodable P w v l si s :
  mlui_unwrap_pointer v = Some l →
  live w l si →
  utf8_decodes P (String_val s) = false →
  ∃ w', mlui_tray_set_title P v s w = Some (v, w') ∧
        shown_title w' si = Some None.
Proof.
  intros Hv Hl Hdec.
  destruct (set_title_shows_decoded_prefix P w v l si s Hv Hl)
    as (w' & Hrun & Htitle).
  exists w'. split; [done|]. rewrite Htitle. unfold stringWithCString.
  by rewrite Hdec.
Qed.

(** C6, as amended. For a live handle and a title text that has no NUL
    byte and that Foundation decodes as UTF-8, [mlui_tray_set_title] clears
    the image, makes the title exactly the given text, makes the item
    visible and its button not hidden, keeps the handle live and returns
    the handle it was given. *)
Theorem set_title_shows_text P w v l si s :
  mlui_unwrap_pointer v = Some l →
  live w l si →
  NUL_free s = true →
  utf8_decodes P s = true →
  ∃ w',
    mlui_tray_set_title P v s w = Some (v, w') ∧
    shown_image w' si = Some None ∧
    shown_title w' si = Some (Some s) ∧
    visible <$> items w' !! si = Some true ∧
    isHidden ∘ button <$> items w' !! si = Some false ∧
    live w' l si.
Proof.
  intros Hv Hl Hnul Hdec.
  destruct (set_title_run P w v l si s Hv Hl)
    as (it & w' & Hit & Hrun & Hhs & Hts & _ & _ & _ & Hi & _).
  exists w'. split; [done|].
  unfold shown_image, shown_title. rewrite Hi, lookup_insert_eq. cbn.
  unfold stringWithCString. rewrite (String_val_NUL_free s Hnul), Hdec.
  repeat split. by eapply set_title_live.
Qed.

(** C6, as stated, fails on a text with a NUL byte: the title of a live
    handle becomes the part of the text before that byte. *)
Lemma set_title_truncates_at_NUL :
  live world_made 1 1 ∧
  ∃ w', mlui_tray_set_title demo_platform handle1 text_with_NUL world_made
          = Some (handle1, w') ∧
        shown_title w' 1 = Some (Some "a") ∧
        shown_title w' 1 ≠ Some (Some text_with_NUL).
Proof.
  split.
  - eexists _, _. repeat split; try reflexivity; [cbn; lia|done].
  - eexists. split; [vm_compute; reflexivity|]. split; [reflexivity|].
    vm_compute. discriminate.
Qed.

(** C10. On a live handle [mlui_tray_set_title] changes nothing but what
    the status item shows: the handle structs, the click adapters with
    their callbacks, the global roots and the status bar are the same, the
    button keeps its target and its action, the item keeps its reference
    count, the other status items are untouched, and the handle is still
    live. *)
Theorem set_title_frame P w v l si s :
  mlui_unwrap_pointer v = Some l →
  live w l si →
  ∃ w',
    mlui_tray_set_title P v s w = Some (v, w') ∧
    handles w' = handles w ∧
    targets w' = targets w ∧
    global_roots w' = global_roots w ∧
    statusBar w' = statusBar w ∧
    button_target ∘ button <$> items w' !! si
      = button_target ∘ button <$> items w !! si ∧
    button_action ∘ button <$> items w' !! si
      = button_action ∘ button <$> items w !! si ∧
    item_refs <$> items w' !! si = item_refs <$> items w !! si ∧
    (∀ si', si' ≠ si → items w' !! si' = items w !! si') ∧
    live w' l si.
Proof.
  intros Hv Hl.
  destruct (set_title_run P w v l si s Hv Hl)
    as (it & w' & Hit & Hrun & Hhs & Hts & Hroots & Hbar & _ & Hi & _).
  exists w'. rewrite Hi, Hit, lookup_insert_eq.
  repeat split; try done.
  - intros si' Hne. by rewrite lookup_insert_ne.
  - by eapply set_title_live.
Qed.

(** ** Global roots *)

Lemma root_count_app t r1 r2 :
  root_count t (r1 ++ r2) = (root_count t r1 + root_count t r2)%nat.
Proof. unfold root_count. by rewrite List.filter_app, length_app. Qed.

Lemma root_count_single t t' :
  root_count t [t'] = if decide (t' = t) then 1%nat else 0%nat.
Proof. unfold root_count. cbn. case_bool_decide; by case_decide. Qed.

Lemma root_count_remove_first t t' r :
  root_count t (remove_first t' r) =
  if decide (t' = t) then pred (root_count t r) else root_count t r.
Proof.
  induction r as [|x r IH]; [by case_decide|].
  cbn [remove_first]. destruct (decide (x = t')) as [->|Hx].
  - unfold root_count. cbn. case_bool_decide; case_decide; done.
  - unfold root_count in *. cbn. case_bool_decide; cbn; rewrite IH.
    + case_decide; [congruence|done].
    + done.
Qed.

(** ** Click handlers *)

(** What [mlui_tray_set_on_click] does to a live handle. *)
Lemma set_on_click_run w v l si cb :
  mlui_unwrap_pointer v = Some l →
  live w l si →
  ∃ h it w',
    handles w !! l = Some h ∧
    items w !! si = Some it ∧
    let t := click_target w h in
    mlui_tray_set_on_click v cb w = Some (Val_unit, w') ∧
    handles w' = <[l := mkHandle (Some si) (Some t) 0]> (handles w) ∧
    targets w' = <[t := mkTarget cb (adapter_refs w h)]> (targets w) ∧
    items w' =
      <[si := mkItem (visible it)
                (mkButton (image (button it)) (title (button it))
                   (isHidden (button it)) (Some t) (Some sel_handleClick))
                (item_refs it)]> (items w) ∧
    global_roots w' =
      (if decide (pinned w h ≠ 0) then remove_first t (global_roots w)
       else global_roots w) ++ [t] ∧
    statusBar w' = statusBar w ∧
    native_actions (events_since w w') =
      (if target h is Some _ then [] else [AllocInit t]) ++
      (if decide (pinned w h ≠ 0) then [RemoveGlobalRoot t] else []) ++
      [RegisterGlobalRoot t; SetTarget si (Some t);
       SetAction si (Some sel_handleClick)] ∧
    live w' l si.
Proof.
  intros Hv (h & it & Hh & Hr & Hs & Hi & Hrefs & Ht).
  destruct v as [p]. cbn in Hv. subst p.
  exists h, it. unfold click_target, pinned, adapter_refs.
  destruct h as [hsi [t|] hrem]; cbn in Hr, Hs, Ht |- *; subst hsi hrem.
  - destruct (Ht t eq_refl) as (tg & Htg & Htrefs). rewrite Htg. cbn.
    destruct (decide (callback tg ≠ 0)) as [Hcb|Hcb].
    all: eexists; split; [done|]; split; [done|].
    all: split; [mrun; reflexivity|].
    all: msimpl; rewrite ?insert_insert_eq.
    all: split; [by rewrite insert_id|].
    all: repeat split; try (since; reflexivity).
    all: eexists _, _; msimpl; rewrite ?lookup_insert_eq.
    all: repeat split; try done.
    all: intros t' [= <-]; rewrite lookup_insert_eq; eauto.
  - eexists; split; [done|]; split; [done|].
    split; [mrun; reflexivity|].
    msimpl; rewrite ?insert_insert_eq.
    rewrite decide_False by (intros H; by apply H).
    repeat split; try (since; reflexivity).
    eexists _, _; msimpl; rewrite ?lookup_insert_eq.
    repeat split; try done.
    intros t' [= <-]; rewrite lookup_insert_eq. eexists. split; [done|]. cbn. lia.
Qed.

(** The roots a handle's adapter has before [mlui_tray_set_on_click]. *)
Lemma root_count_pinned w l h :
  roots_ok w →
  (∀ t, target h = Some t → is_Some (targets w !! t)) →
  handles w !! l = Some h →
  root_count (click_target w h) (global_roots w) =
  if decide (pinned w h = 0) then 0%nat else 1%nat.
Proof.
  intros Hok Ht _. rewrite Hok. unfold click_target, pinned.
  destruct (target h) as [t|].
  - destruct (Ht t eq_refl) as [tg Htg]. by rewrite Htg.
  - assert (targets w !! fresh (dom (targets w)) = None) as ->
      by apply not_elem_of_dom, is_fresh.
    done.
Qed.

(** [mlui_tray_set_on_click] keeps the pinning discipline, and leaves the
    adapter's slot registered exactly once. *)
Lemma set_on_click_roots_ok w w' t cb refs old :
  roots_ok w →
  cb ≠ 0 →
  root_count t (global_roots w) = (if decide (old = 0) then 0%nat else 1%nat) →
  targets w' = <[t := mkTarget cb refs]> (targets w) →
  global_roots w' =
    (if decide (old ≠ 0) then remove_first t (global_roots w)
     else global_roots w) ++ [t] →
  roots_ok w' ∧ root_count t (global_roots w') = 1%nat.
Proof.
  intros Hok Hcb Hcount Hts Hroots.
  assert (Hone : root_count t (global_roots w') = 1%nat).
  { rewrite Hroots, root_count_app, root_count_single.
    destruct (decide (t = t)) as [_|]; [|done].
    destruct (decide (old ≠ 0)) as [Hnz|Hz].
    - rewrite root_count_remove_first, Hcount.
      destruct (decide (t = t)) as [_|]; [|done].
      by destruct (decide (old = 0)).
    - rewrite Hcount. destruct (decide (old = 0)); [done|]. by destruct Hz. }
  split; [|done].
  intros t'. destruct (decide (t' = t)) as [->|Hne].
  - rewrite Hone, Hts, lookup_insert_eq. cbn [callback].
    by destruct (decide (cb = 0)).
  - rewrite Hts, lookup_insert_ne by done. rewrite <- Hok.
    rewrite Hroots, root_count_app, root_count_single.
    destruct (decide (t = t')) as [|_]; [congruence|].
    destruct (decide (old ≠ 0)); [|lia].
    rewrite root_count_remove_first.
    destruct (decide (t = t')) as [|_]; [congruence|]. lia.
Qed.

(** A click on a status item whose button targets an adapter that holds a
    callback: the callback is called once, with [()], and nothing else
    happens. *)
Lemma click_run w si it t tg :
  items w !! si = Some it →
  button_target (button it) = Some t →
  button_action (button it) = Some sel_handleClick →
  targets w !! t = Some tg →
  callback tg ≠ 0 →
  ∃ w', click si w = Some (tt, w') ∧
        same_state w w' ∧
        events_since w w' = [CamlCallback (callback tg) Val_unit].
Proof.
  intros Hi Hbt Hba Ht Hcb.
  eexists. split; [mrun; reflexivity|].
  split; [by repeat split|]. by since.
Qed.

(** C3. On a live handle, in a world that keeps the pinning discipline,
    [mlui_tray_set_on_click] with closure [A] and then with closure [B]
    replaces the registration: the second call removes the global root of
    the slot of the handle's click adapter before it registers it again,
    the slot then holds [B], and after either call the slot is registered
    exactly once; a click on the status item then calls [B] once and calls
    nothing else, so it does not call [A]. *)
Theorem set_on_click_replaces w v l si A B :
  mlui_unwrap_pointer v = Some l →
  live w l si →
  roots_ok w →
  A ≠ 0 →
  B ≠ 0 →
  ∃ t wA wB wC,
    mlui_tray_set_on_click v A w = Some (Val_unit, wA) ∧
    mlui_tray_set_on_click v B wA = Some (Val_unit, wB) ∧
    click si wB = Some (tt, wC) ∧
    events_since wB wC = [CamlCallback B Val_unit] ∧
    count (is_callback_of B) (events_since wB wC) = 1%nat ∧
    (A ≠ B → count (is_callback_of A) (events_since wB wC) = 0%nat) ∧
    native_actions (events_since wA wB) =
      [RemoveGlobalRoot t; RegisterGlobalRoot t; SetTarget si (Some t);
       SetAction si (Some sel_handleClick)] ∧
    handles wB !! l = Some (mkHandle (Some si) (Some t) 0) ∧
    callback <$> targets wA !! t = Some A ∧
    callback <$> targets wB !! t = Some B ∧
    root_count t (global_roots wA) = 1%nat ∧
    root_count t (global_roots wB) = 1%nat ∧
    roots_ok wA ∧ roots_ok wB ∧
    live wB l si.
Proof.
  intros Hv Hlive Hok HA HB.
  destruct (set_on_click_run w v l si A Hv Hlive)
    as (h & it & wA & Hh & Hi & HrunA & HhA & HtA & HiA & HrA & _ & _ & HliveA).
  set (t := click_target w h) in *.
  assert (Hadapters : ∀ t0, target h = Some t0 → is_Some (targets w !! t0)).
  { destruct Hlive as (h' & it' & Hh' & _ & _ & _ & _ & Ht').
    assert (h' = h) as -> by congruence.
    intros t0 Ht0. destruct (Ht' t0 Ht0) as (tg & -> & _). eauto. }
  pose proof (root_count_pinned w l h Hok Hadapters Hh) as Hcount.
  destruct (set_on_click_roots_ok w wA t A _ _ Hok HA Hcount HtA HrA)
    as [HokA HoneA].
  destruct (set_on_click_run wA v l si B Hv HliveA)
    as (hA & itA & wB & HhA' & HiA' & HrunB & HhB & HtB & HiB & HrB & _ & HevB & HliveB).
  rewrite HhA, lookup_insert_eq in HhA'. injection HhA' as <-.
  rewrite HiA, lookup_insert_eq in HiA'. injection HiA' as <-.
  unfold click_target, pinned, adapter_refs in HtB, HiB, HrB, HevB.
  cbn [target] in HtB, HiB, HrB, HevB.
  assert (HtAt : targets wA !! t = Some (mkTarget A (adapter_refs w h)))
    by (rewrite HtA; apply lookup_insert_eq).
  rewrite HtAt in HtB, HrB, HevB.
  cbn [from_option callback target_refs] in HtB, HrB, HevB.
  assert (HcountA : root_count t (global_roots wA)
                    = if decide (A = 0) then 0%nat else 1%nat)
    by (by rewrite decide_False).
  destruct (set_on_click_roots_ok wA wB t B _ _ HokA HB HcountA HtB HrB)
    as [HokB HoneB].
  rewrite decide_True in HevB by done.
  assert (∃ itB, items wB !! si = Some itB ∧
                 button_target (button itB) = Some t ∧
                 button_action (button itB) = Some sel_handleClick)
    as (itB & HitB & HbtB & HbaB)
    by (eexists; by rewrite HiB, lookup_insert_eq).
  assert (HtBt : targets wB !! t = Some (mkTarget B (adapter_refs w h)))
    by (rewrite HtB; apply lookup_insert_eq).
  destruct (click_run wB si itB t _ HitB HbtB HbaB HtBt HB)
    as (wC & HrunC & _ & HevC).
  assert (HhBl : handles wB !! l = Some (mkHandle (Some si) (Some t) 0))
    by (rewrite HhB; apply lookup_insert_eq).
  exists t, wA, wB, wC.
  rewrite HevC, HtAt, HtBt, HhBl.
  repeat split; try done.
  - unfold count. cbn. by rewrite bool_decide_true.
  - intros Hne. unfold count. cbn. by rewrite bool_decide_false.
Qed.

(** ** Removal *)

(** What [mlui_tray_remove] does to a live handle. *)
Lemma remove_run w v l si :
  mlui_unwrap_pointer v = Some l →
  live w l si →
  ∃ h it w',
    handles w !! l = Some h ∧
    items w !! si = Some it ∧
    mlui_tray_remove v w = Some (Val_unit, w') ∧
    handles w' = <[l := mkHandle None None 1]> (handles w) ∧
    items w' =
      match item_refs it with
      | S (S n) => <[si := mkItem (visible it) (button it) (S n)]> (items w)
      | _ => delete si (items w)
      end ∧
    targets w' =
      match target h with
      | Some t =>
          match adapter_refs w h with
          | S (S n) => <[t := mkTarget 0 (S n)]> (targets w)
          | _ => delete t (targets w)
          end
      | None => targets w
      end ∧
    global_roots w' =
      match target h with
      | Some t =>
          if decide (pinned w h ≠ 0) then remove_first t (global_roots w)
          else global_roots w
      | None => global_roots w
      end ∧
    (∀ x, x ∈ statusBar w' → x ∈ statusBar w ∧ x ≠ si) ∧
    events_since w w' =
      [RemoveStatusItem si; Release (ObjItem si)] ++
      match item_refs it with
      | S (S _) => []
      | _ => [Dealloc (ObjItem si)]
      end ++
      match target h with
      | Some t =>
          (if decide (pinned w h ≠ 0) then [RemoveGlobalRoot t] else []) ++
          [Release (ObjTarget t)] ++
          match adapter_refs w h with
          | S (S _) => []
          | _ => [Dealloc (ObjTarget t)]
          end
      | None => []
      end.
Proof.
  intros Hv (h & it & Hh & Hr & Hs & Hi & Hrefs & Ht).
  destruct v as [p]. cbn in Hv. subst p.
  exists h, it. unfold pinned, adapter_refs.
  destruct h as [hsi [t|] hrem]; cbn in Hr, Hs, Ht |- *; subst hsi hrem.
  - destruct (Ht t eq_refl) as (tg & Htg & Htrefs). rewrite Htg. cbn.
    destruct tg as [cb trefs]. cbn in Htrefs |- *.
    destruct (item_refs it) as [|[|n]] eqn:Hn; [lia| |];
      (destruct trefs as [|[|m]]; [lia| |]);
      (destruct (decide (cb = 0)) as [->|Hcb];
       [rewrite (decide_False (P := 0 ≠ 0)) by (intro; congruence)
       |rewrite (decide_True (P := cb ≠ 0)) by done]).
    all: eexists; split; [done|]; split; [done|].
    all: split; [mrun; rewrite ?lookup_delete_eq; reflexivity|].
    all: msimpl; rewrite ?insert_insert_eq, ?delete_insert_eq.
    all: rewrite ?(decide_True (P := cb ≠ 0)) by done.
    all: repeat split; try by since.
    all: rewrite ?list_elem_of_filter in *; tauto.
  - destruct (item_refs it) as [|[|n]] eqn:Hn; [lia| |].
    all: eexists; split; [done|]; split; [done|].
    all: split; [mrun; reflexivity|].
    all: msimpl; rewrite ?insert_insert_eq.
    all: repeat split; try by since.
    all: rewrite ?list_elem_of_filter in *; tauto.
Qed.

Lemma count_nil p : count p [] = 0%nat.
Proof. done. Qed.

(** One removal releases each object at most once and removes each global
    root at most once. *)
Lemma remove_events_once si t (dealloc_item unpin dealloc_target : bool) evs :
  evs =
    [RemoveStatusItem si; Release (ObjItem si)] ++
    (if dealloc_item then [Dealloc (ObjItem si)] else []) ++
    (if unpin then [RemoveGlobalRoot t] else []) ++
    [Release (ObjTarget t)] ++
    (if dealloc_target then [Dealloc (ObjTarget t)] else []) →
  (∀ o, count (is_release_of o) evs ≤ 1)%nat ∧
  (∀ t', count (is_root_removal_of t') evs ≤ 1)%nat.
Proof.
  intros ->. split.
  - intros o. destruct dealloc_item, unpin, dealloc_target; unfold count; cbn.
    all: repeat case_bool_decide; cbn; try lia; congruence.
  - intros t'. destruct dealloc_item, unpin, dealloc_target; unfold count; cbn.
    all: repeat case_bool_decide; cbn; lia.
Qed.

(** C2. [mlui_tray_remove] is idempotent on every handle a caller can
    hold, dead or live: it returns, a second call right after it returns
    too and leaves the world exactly as the first call left it, and over
    the two calls no object is released twice and no global root is removed
    twice. After the first call the handle is dead. *)
Theorem remove_is_idempotent w v :
  usable w v →
  ∃ w1,
    mlui_tray_remove v w = Some (Val_unit, w1) ∧
    mlui_tray_remove v w1 = Some (Val_unit, w1) ∧
    (mlui_tray_remove v;; mlui_tray_remove v) w = Some (Val_unit, w1) ∧
    inert w1 (mlui_unwrap_pointer v) ∧
    (∀ o, count (is_release_of o) (events_since w w1) ≤ 1)%nat ∧
    (∀ t, count (is_root_removal_of t) (events_since w w1) ≤ 1)%nat.
Proof.
  intros [Hdead|(l & si & Hv & Hlive)].
  - exists w. pose proof (remove_inert w v Hdead) as Hrun.
    rewrite events_since_refl.
    repeat split; try done; [by erewrite bind_Some|..].
    all: intros; rewrite count_nil; lia.
  - destruct (remove_run w v l si Hv Hlive)
      as (h & it & w1 & Hh & Hi & Hrun & Hhs & _ & _ & _ & _ & Hev).
    assert (Hdead : inert w1 (mlui_unwrap_pointer v)).
    { rewrite Hv. exists (mkHandle None None 1).
      by rewrite Hhs, lookup_insert_eq. }
    pose proof (remove_inert w1 v Hdead) as Hrun1.
    exists w1. split; [done|]. split; [done|].
    split; [by erewrite bind_Some|]. split; [done|].
    destruct (target h) as [t|].
    + eapply (remove_events_once si t
                (match item_refs it with S (S _) => false | _ => true end)
                (bool_decide (pinned w h ≠ 0))
                (match adapter_refs w h with S (S _) => false | _ => true end)).
      rewrite Hev.
      destruct (decide (pinned w h ≠ 0));
        [rewrite bool_decide_true by done|rewrite bool_decide_false by done].
      all: by destruct (item_refs it) as [|[|?]];
             destruct (adapter_refs w h) as [|[|?]].
    + rewrite Hev. split.
      * intros o. destruct (item_refs it) as [|[|?]]; unfold count; cbn;
          case_bool_decide; cbn; lia.
      * intros t. destruct (item_refs it) as [|[|?]]; unfold count; cbn; lia.
Qed.

(** ** The invariant of reachable worlds *)

Lemma owning_live w l h :
  handles w !! l = Some h → owning w h →
  ∃ si, statusItem h = Some si ∧ live w l si.
Proof.
  intros Hh (Hr & si & it & Hs & Hi & Hrefs & _ & Ht).
  exists si. split; [done|]. exists h, it.
  repeat split; try done; [lia|].
  intros t Htg. destruct (Ht t Htg) as (tg & Htgs & Htr).
  exists tg. split; [done|lia].
Qed.

Lemma wf_made_handle_usable w v : wf w → made_handle w v → usable w v.
Proof.
  intros Hwf (l & Hv & [h Hh]).
  destruct (wf_handle w Hwf l h Hh) as [->|Hown].
  - left. rewrite Hv. by exists dead_struct.
  - right. destruct (owning_live w l h Hh Hown) as (si & _ & Hlive). eauto.
Qed.

Lemma wf_same_state w w' : same_state w w' → wf w → wf w'.
Proof.
  intros (Hhs & His & Hts & Hbar & Hroots & _) [H1 H2 H3 H4 H5 H6 H7].
  split; unfold owning, roots_ok in *;
    by rewrite ?Hhs, ?His, ?Hts, ?Hbar, ?Hroots.
Qed.

Lemma wf_empty_world : wf empty_world.
Proof.
  split; cbn; try done.
  - intros si [? H]. by rewrite lookup_empty in H.
  - intros t [? H]. by rewrite lookup_empty in H.
  - intros si H. by apply not_elem_of_nil in H.
Qed.

(** A struct with a status item owns it, and the item is an object. *)
Lemma wf_item_alive w l h si :
  wf w → handles w !! l = Some h → statusItem h = Some si →
  is_Some (items w !! si).
Proof.
  intros Hwf Hh Hs. destruct (wf_handle w Hwf l h Hh) as [->|Hown]; [done|].
  destruct Hown as (_ & si' & it & Hs' & Hi & _). exists it. congruence.
Qed.

Lemma wf_target_alive w l h t :
  wf w → handles w !! l = Some h → target h = Some t →
  is_Some (targets w !! t).
Proof.
  intros Hwf Hh Ht. destruct (wf_handle w Hwf l h Hh) as [->|Hown]; [done|].
  destruct Hown as (_ & si' & it & _ & _ & _ & _ & Htg).
  destruct (Htg t Ht) as (tg & ? & _). by exists tg.
Qed.

Lemma make_wf P vImagePath w w' r :
  wf w → mlui_tray_make P vImagePath w = Some (r, w') → wf w'.
Proof.
  intros Hwf Hrun.
  destruct (make_run P vImagePath w)
    as (w1 & Hrun1 & Hhs & His & Hts & Hroots & Hbar & _).
  rewrite Hrun in Hrun1. injection Hrun1 as -> <-.
  set (l := fresh (dom (handles w))) in *.
  set (si := fresh (dom (items w))) in *.
  assert (Hl : handles w !! l = None) by apply not_elem_of_dom, is_fresh.
  assert (Hsi : items w !! si = None) by apply not_elem_of_dom, is_fresh.
  assert (Hbt : button_target (made_button P vImagePath) = None).
  { unfold made_button. destruct vImagePath as [path|]; [|done].
    by destruct (mlui_make_image_from_path P (String_val path)). }
  split.
  - intros l' h'. rewrite Hhs. destruct (decide (l' = l)) as [->|Hne].
    + rewrite lookup_insert_eq. intros [= <-]. right. split; [done|].
      exists si, (mkItem true (made_button P vImagePath) 1).
      rewrite His, lookup_insert_eq. cbn. rewrite Hbt.
      repeat split; done.
    + rewrite lookup_insert_ne by done. intros Hh'.
      destruct (wf_handle w Hwf l' h' Hh') as [->|Hown]; [by left|right].
      destruct Hown as (Hr & si' & it' & Hs' & Hi' & Hrest).
      split; [done|]. exists si', it'. rewrite His, Hts.
      rewrite lookup_insert_ne by congruence. done.
  - intros si'. rewrite His, Hhs. destruct (decide (si' = si)) as [->|Hne].
    + intros _. exists l, (mkHandle (Some si) None 0).
      by rewrite lookup_insert_eq.
    + rewrite lookup_insert_ne by done. intros Hsome.
      destruct (wf_item_owner w Hwf si' Hsome) as (l0 & h0 & Hh0 & Hs0).
      exists l0, h0. rewrite lookup_insert_ne by congruence. done.
  - intros t. rewrite Hts, Hhs. intros Hsome.
    destruct (wf_target_owner w Hwf t Hsome) as (l0 & h0 & Hh0 & Ht0).
    exists l0, h0. rewrite lookup_insert_ne by congruence. done.
  - intros l1 l2 h1 h2 si'. rewrite Hhs.
    destruct (decide (l1 = l)) as [->|Hne1];
      destruct (decide (l2 = l)) as [->|Hne2]; [done| | |].
    + rewrite lookup_insert_eq, lookup_insert_ne by done.
      intros [= <-] Hh2 [= <-] Hs2.
      pose proof (wf_item_alive w l2 h2 si Hwf Hh2 Hs2) as [? ?]. congruence.
    + rewrite lookup_insert_eq, lookup_insert_ne by done.
      intros Hh1 [= <-] Hs1 [= <-].
      pose proof (wf_item_alive w l1 h1 si Hwf Hh1 Hs1) as [? ?]. congruence.
    + rewrite !lookup_insert_ne by done. apply (wf_item_inj w Hwf).
  - intros l1 l2 h1 h2 t. rewrite Hhs.
    destruct (decide (l1 = l)) as [->|Hne1];
      destruct (decide (l2 = l)) as [->|Hne2]; [done| | |].
    + rewrite lookup_insert_eq. by intros [= <-].
    + rewrite lookup_insert_ne, lookup_insert_eq by done. by intros _ [= <-].
    + rewrite !lookup_insert_ne by done. apply (wf_target_inj w Hwf).
  - intros si'. rewrite Hbar, His, elem_of_app, list_elem_of_singleton.
    intros [Hin| ->]; [|by rewrite lookup_insert_eq].
    destruct (decide (si' = si)) as [->|Hne]; [by rewrite lookup_insert_eq|].
    rewrite lookup_insert_ne by done. by apply (wf_bar w Hwf).
  - unfold roots_ok. rewrite Hroots, Hts. apply (wf_roots w Hwf).
Qed.

Lemma dead_struct_inert w v l :
  mlui_unwrap_pointer v = Some l → handles w !! l = Some dead_struct →
  inert w (mlui_unwrap_pointer v).
Proof. intros -> Hh. by exists dead_struct. Qed.

Lemma set_title_step P w v s :
  wf w → made_handle w v →
  ∃ w', mlui_tray_set_title P v s w = Some (v, w') ∧ wf w'.
Proof.
  intros Hwf (l & Hv & [h Hh]).
  destruct (wf_handle w Hwf l h Hh) as [->|Hown].
  - destruct (set_title_inert P w v s (dead_struct_inert w v l Hv Hh))
      as (w' & Hrun & Hsame & _).
    exists w'. split; [done|]. by eapply wf_same_state.
  - destruct (owning_live w l h Hh Hown) as (si & Hs & Hlive).
    destruct (set_title_run P w v l si s Hv Hlive)
      as (it & w' & Hi & Hrun & Hhs & Hts & Hroots & Hbar & _ & His & _).
    exists w'. split; [done|].
    assert (Hdom : ∀ si', is_Some (items w' !! si') ↔ is_Some (items w !! si')).
    { intros si'. rewrite His. destruct (decide (si' = si)) as [->|Hne].
      - rewrite lookup_insert_eq, Hi. split; eauto.
      - by rewrite lookup_insert_ne. }
    split; unfold roots_ok; rewrite ?Hhs, ?Hts, ?Hroots, ?Hbar.
    + intros l' h' Hh'.
      destruct (wf_handle w Hwf l' h' Hh') as [->|Hown']; [by left|right].
      destruct Hown' as (Hr' & si' & it' & Hs' & Hi' & Hrefs' & Hbt' & Htg').
      split; [done|]. rewrite His, Hts.
      destruct (decide (si' = si)) as [->|Hne].
      * assert (it' = it) as -> by congruence.
        eexists si, _. rewrite lookup_insert_eq.
        split; [done|]. split; [reflexivity|]. cbn. repeat split; done.
      * exists si', it'. rewrite lookup_insert_ne by done. repeat split; done.
    + intros si' Hsome. apply (wf_item_owner w Hwf), Hdom, Hsome.
    + apply (wf_target_owner w Hwf).
    + apply (wf_item_inj w Hwf).
    + apply (wf_target_inj w Hwf).
    + intros si' Hin. apply Hdom, (wf_bar w Hwf), Hin.
    + apply (wf_roots w Hwf).
Qed.

Lemma click_step w si :
  wf w → si ∈ statusBar w →
  ∃ w', click si w = Some (tt, w') ∧ wf w'.
Proof.
  intros Hwf Hin. destruct (wf_bar w Hwf si Hin) as [it Hi].
  destruct (button_target (button it)) as [t|] eqn:Hbt;
    [destruct (button_action (button it)) as [[]|] eqn:Hba|].
  - destruct (wf_item_owner w Hwf si) as (l & h & Hh & Hs); [by exists it|].
    destruct (wf_handle w Hwf l h Hh) as [->|Hown]; [done|].
    destruct Hown as (_ & si' & it' & Hs' & Hi' & _ & Htarget & Htg).
    assert (si' = si) as -> by congruence.
    assert (it' = it) as -> by congruence.
    destruct (Htg t (Htarget t Hbt)) as (tg & Htgs & _).
    destruct (decide (callback tg = 0)) as [Hz|Hnz].
    + exists w. split; [|done]. by apply (click_empty_slot w si it t tg).
    + destruct (click_run w si it t tg Hi Hbt Hba Htgs Hnz)
        as (w' & Hrun & Hsame & _).
      exists w'. split; [done|]. by eapply wf_same_state.
  - exists w. split; [|done]. unfold click.
    erewrite bind_Some; [|by unfold get_item; rewrite Hi].
    by rewrite Hbt, Hba.
  - exists w. split; [|done]. unfold click.
    erewrite bind_Some; [|by unfold get_item; rewrite Hi].
    by rewrite Hbt.
Qed.

(** In a well-formed world the other structs share neither the status
    item nor the click adapter of a live handle. *)
Lemma wf_apart w l h l' h' :
  wf w → handles w !! l = Some h → handles w !! l' = Some h' → l' ≠ l →
  (∀ si, statusItem h = Some si → statusItem h' ≠ Some si) ∧
  target h' ≠ Some (click_target w h).
Proof.
  intros Hwf Hh Hh' Hne. split.
  - intros si Hs Hs'. apply Hne. by eapply (wf_item_inj w Hwf).
  - intros Ht'. unfold click_target in Ht'.
    destruct (target h) as [t|] eqn:Ht.
    + apply Hne. by eapply (wf_target_inj w Hwf).
    + destruct (wf_target_alive w l' h' _ Hwf Hh' Ht') as [tg Htg].
      assert (targets w !! fresh (dom (targets w)) = None)
        by apply not_elem_of_dom, is_fresh.
      congruence.
Qed.

Lemma set_on_click_step w v cb :
  wf w → made_handle w v → cb ≠ 0 →
  ∃ w', mlui_tray_set_on_click v cb w = Some (Val_unit, w') ∧ wf w'.
Proof.
  intros Hwf (l & Hv & [h Hh]) Hcb.
  destruct (wf_handle w Hwf l h Hh) as [->|Hown].
  { exists w. split; [|done].
    by apply set_on_click_inert, (dead_struct_inert w v l). }
  destruct (owning_live w l h Hh Hown) as (si & Hs & Hlive).
  destruct (set_on_click_run w v l si cb Hv Hlive)
    as (h0 & it & w' & Hh0 & Hi & Hrun & Hhs & Hts & His & Hroots & Hbar & _).
  assert (h0 = h) as -> by congruence.
  set (t := click_target w h) in *.
  exists w'. split; [done|].
  destruct Hown as (Hr & si0 & it0 & Hs0 & Hi0 & Hrefs & Hbt & Htg).
  assert (si0 = si) as -> by congruence.
  assert (it0 = it) as -> by congruence.
  assert (Hone : adapter_refs w h = 1%nat).
  { unfold adapter_refs. destruct (target h) as [t0|]; [|done].
    destruct (Htg t0 eq_refl) as (tg & -> & Htr). done. }
  assert (Hdom : ∀ si', is_Some (items w' !! si') ↔ is_Some (items w !! si')).
  { intros si'. rewrite His. destruct (decide (si' = si)) as [->|Hne].
    - rewrite lookup_insert_eq, Hi. split; eauto.
    - by rewrite lookup_insert_ne. }
  assert (Htown : ∀ t0, target h = Some t0 → t0 = t).
  { intros t0 Ht0. unfold t, click_target. by rewrite Ht0. }
  split.
  - intros l' h'. rewrite Hhs. destruct (decide (l' = l)) as [->|Hne].
    + rewrite lookup_insert_eq. intros [= <-]. right. split; [done|].
      eexists si, _. rewrite His, Hts, lookup_insert_eq.
      split; [done|]. split; [reflexivity|]. cbn.
      split; [done|]. split; [by intros ? [= <-]|].
      intros ? [= <-]. rewrite lookup_insert_eq, Hone. eauto.
    + rewrite lookup_insert_ne by done. intros Hh'.
      destruct (wf_apart w l h l' h' Hwf Hh Hh' Hne) as [Hitem Htarget].
      destruct (wf_handle w Hwf l' h' Hh') as [->|Hown']; [by left|right].
      destruct Hown' as (Hr' & si' & it' & Hs' & Hi' & Hrefs' & Hbt' & Htg').
      split; [done|]. exists si', it'. rewrite His, Hts.
      rewrite lookup_insert_ne by (intros <-; by eapply Hitem).
      repeat split; try done.
      intros t' Ht'.
      rewrite lookup_insert_ne by (intros <-; by apply Htarget).
      by apply Htg'.
  - intros si' Hsome. apply Hdom in Hsome.
    destruct (wf_item_owner w Hwf si' Hsome) as (l0 & h0 & Hh0' & Hs0').
    rewrite Hhs. destruct (decide (l0 = l)) as [->|Hne].
    + eexists l, _. rewrite lookup_insert_eq. split; [done|]. cbn. congruence.
    + exists l0, h0. by rewrite lookup_insert_ne.
  - intros t'. rewrite Hts, Hhs. destruct (decide (t' = t)) as [->|Hne].
    + intros _. eexists l, _. by rewrite lookup_insert_eq.
    + rewrite lookup_insert_ne by done. intros Hsome.
      destruct (wf_target_owner w Hwf t' Hsome) as (l0 & h0 & Hh0' & Ht0').
      destruct (decide (l0 = l)) as [->|Hne0].
      * assert (h0 = h) as -> by congruence. by destruct Hne; apply Htown.
      * exists l0, h0. by rewrite lookup_insert_ne.
  - intros l1 l2 h1 h2 si'. rewrite Hhs.
    destruct (decide (l1 = l)) as [->|Hne1];
      destruct (decide (l2 = l)) as [->|Hne2]; [done| | |].
    + rewrite lookup_insert_eq, lookup_insert_ne by done.
      intros [= <-] Hh2 [= <-] Hs2. by eapply (wf_item_inj w Hwf).
    + rewrite lookup_insert_eq, lookup_insert_ne by done.
      intros Hh1 [= <-] Hs1 [= <-]. by eapply (wf_item_inj w Hwf).
    + rewrite !lookup_insert_ne by done. apply (wf_item_inj w Hwf).
  - intros l1 l2 h1 h2 t'. rewrite Hhs.
    destruct (decide (l1 = l)) as [->|Hne1];
      destruct (decide (l2 = l)) as [->|Hne2]; [done| | |].
    + rewrite lookup_insert_eq, lookup_insert_ne by done.
      intros [= <-] Hh2 [= <-] Ht2.
      by destruct (wf_apart w l h l2 h2 Hwf Hh Hh2 Hne2) as [_ []].
    + rewrite lookup_insert_eq, lookup_insert_ne by done.
      intros Hh1 [= <-] Ht1 [= <-].
      by destruct (wf_apart w l h l1 h1 Hwf Hh Hh1 Hne1) as [_ []].
    + rewrite !lookup_insert_ne by done. apply (wf_target_inj w Hwf).
  - intros si'. rewrite Hbar. intros Hin. apply Hdom, (wf_bar w Hwf), Hin.
  - assert (Hadapters : ∀ t0, target h = Some t0 → is_Some (targets w !! t0)).
    { intros t0 Ht0. destruct (Htg t0 Ht0) as (tg & -> & _). eauto. }
    pose proof (root_count_pinned w l h (wf_roots w Hwf) Hadapters Hh) as Hc.
    by destruct (set_on_click_roots_ok w w' t cb _ _
                   (wf_roots w Hwf) Hcb Hc Hts Hroots).
Qed.

Lemma remove_step w v :
  wf w → made_handle w v →
  ∃ w', mlui_tray_remove v w = Some (Val_unit, w') ∧ wf w'.
Proof.
  intros Hwf (l & Hv & [h Hh]).
  destruct (wf_handle w Hwf l h Hh) as [->|Hown].
  { exists w. split; [|done].
    by apply remove_inert, (dead_struct_inert w v l). }
  destruct (owning_live w l h Hh Hown) as (si & Hs & Hlive).
  destruct (remove_run w v l si Hv Hlive)
    as (h0 & it & w' & Hh0 & Hi & Hrun & Hhs & His & Hts & Hroots & Hbar & _).
  assert (h0 = h) as -> by congruence.
  exists w'. split; [done|].
  destruct Hown as (Hr & si0 & it0 & Hs0 & Hi0 & Hrefs & Hbt & Htg).
  assert (si0 = si) as -> by congruence.
  assert (it0 = it) as -> by congruence.
  rewrite Hrefs in His.
  assert (Hts' : targets w' =
            match target h with
            | Some t => delete t (targets w)
            | None => targets w
            end).
  { rewrite Hts. unfold adapter_refs. destruct (target h) as [t|]; [|done].
    destruct (Htg t eq_refl) as (tg & -> & Htr). cbn. by rewrite Htr. }
  clear Hts.
  assert (Hother : ∀ l' h', handles w !! l' = Some h' → l' ≠ l →
            statusItem h' ≠ Some si ∧
            ∀ t, target h' = Some t → target h ≠ Some t).
  { intros l' h' Hh' Hne. split.
    - intros Hs'. apply Hne. by eapply (wf_item_inj w Hwf).
    - intros t Ht' Ht. apply Hne. by eapply (wf_target_inj w Hwf). }
  split.
  - intros l' h'. rewrite Hhs. destruct (decide (l' = l)) as [->|Hne].
    + rewrite lookup_insert_eq. intros [= <-]. by left.
    + rewrite lookup_insert_ne by done. intros Hh'.
      destruct (Hother l' h' Hh' Hne) as [Hitem Htarget].
      destruct (wf_handle w Hwf l' h' Hh') as [->|Hown']; [by left|right].
      destruct Hown' as (Hr' & si' & it' & Hs' & Hi' & Hrefs' & Hbt' & Htg').
      split; [done|]. exists si', it'. rewrite His, Hts'.
      rewrite lookup_delete_ne by congruence.
      repeat split; try done.
      intros t' Ht'. destruct (target h) as [t|] eqn:Ht; [|by apply Htg'].
      rewrite lookup_delete_ne; [by apply Htg'|].
      intros <-. by eapply Htarget.
  - intros si'. rewrite His, Hhs. destruct (decide (si' = si)) as [->|Hne].
    + rewrite lookup_delete_eq. by intros [? ?].
    + rewrite lookup_delete_ne by done. intros Hsome.
      destruct (wf_item_owner w Hwf si' Hsome) as (l0 & h0 & Hh0' & Hs0').
      exists l0, h0. rewrite lookup_insert_ne by congruence. done.
  - intros t'. rewrite Hts', Hhs. intros Hsome.
    assert (is_Some (targets w !! t') ∧ target h ≠ Some t') as [Hsome' Hne].
    { destruct (target h) as [t|]; [|done].
      destruct (decide (t' = t)) as [->|Hne].
      - rewrite lookup_delete_eq in Hsome. by destruct Hsome.
      - rewrite lookup_delete_ne in Hsome by done. split; [done|congruence]. }
    destruct (wf_target_owner w Hwf t' Hsome') as (l0 & h0 & Hh0' & Ht0').
    exists l0, h0. rewrite lookup_insert_ne by congruence. done.
  - intros l1 l2 h1 h2 si'. rewrite Hhs.
    destruct (decide (l1 = l)) as [->|Hne1];
      destruct (decide (l2 = l)) as [->|Hne2]; [done| | |].
    + rewrite lookup_insert_eq. by intros [= <-].
    + rewrite lookup_insert_ne, lookup_insert_eq by done. by intros _ [= <-].
    + rewrite !lookup_insert_ne by done. apply (wf_item_inj w Hwf).
  - intros l1 l2 h1 h2 t'. rewrite Hhs.
    destruct (decide (l1 = l)) as [->|Hne1];
      destruct (decide (l2 = l)) as [->|Hne2]; [done| | |].
    + rewrite lookup_insert_eq. by intros [= <-].
    + rewrite lookup_insert_ne, lookup_insert_eq by done. by intros _ [= <-].
    + rewrite !lookup_insert_ne by done. apply (wf_target_inj w Hwf).
  - intros si' Hin. destruct (Hbar si' Hin) as [Hin' Hne].
    rewrite His, lookup_delete_ne by done. by apply (wf_bar w Hwf).
  - pose proof (wf_roots w Hwf) as Hok.
    intros t'. rewrite Hroots, Hts'. unfold pinned.
    destruct (target h) as [t|] eqn:Ht; [|apply Hok].
    destruct (Htg t eq_refl) as (tg & Htgs & _). rewrite Htgs. cbn.
    pose proof (Hok t) as Hct. rewrite Htgs in Hct.
    destruct (decide (t' = t)) as [->|Hne].
    + rewrite lookup_delete_eq.
      destruct (decide (callback tg ≠ 0)).
      * rewrite root_count_remove_first, Hct.
        destruct (decide (t = t)); [|done]. by destruct (decide (callback tg = 0)).
      * rewrite Hct. by destruct (decide (callback tg = 0)).
    + rewrite lookup_delete_ne by done. rewrite <- Hok.
      destruct (decide (callback tg ≠ 0)); [|done].
      rewrite root_count_remove_first. by destruct (decide (t = t')).
Qed.

Lemma make_step P vImagePath w :
  wf w →
  ∃ v w', mlui_tray_make P vImagePath w = Some (v, w') ∧ wf w' ∧
          made_handle w' v.
Proof.
  intros Hwf.
  destruct (make_run P vImagePath w) as (w' & Hrun & Hhs & _).
  eexists _, w'. split; [done|]. split; [by eapply make_wf|].
  eexists. split; [done|]. rewrite Hhs, lookup_insert_eq. eauto.
Qed.

(** Every admissible call returns, and keeps the invariant. *)
Lemma call_step P w c :
  wf w → admissible w c →
  ∃ w', run_call P c w = Some (tt, w') ∧ wf w'.
Proof.
  intros Hwf Hc. destruct c as [path|v s|v cb|v|si]; cbn in Hc |- *.
  - destruct (make_step P path w Hwf) as (v & w' & Hrun & Hwf' & _).
    exists w'. split; [|done]. by erewrite bind_Some.
  - destruct (set_title_step P w v s Hwf Hc) as (w' & Hrun & Hwf').
    exists w'. split; [|done]. by erewrite bind_Some.
  - destruct Hc as [Hv Hcb].
    destruct (set_on_click_step w v cb Hwf Hv Hcb) as (w' & Hrun & Hwf').
    exists w'. split; [|done]. by erewrite bind_Some.
  - destruct (remove_step w v Hwf Hc) as (w' & Hrun & Hwf').
    exists w'. split; [|done]. by erewrite bind_Some.
  - by apply click_step.
Qed.

Lemma reachable_wf P w : reachable P w → wf w.
Proof.
  induction 1 as [|w c w' _ IH Hc Hrun]; [apply wf_empty_world|].
  destruct (call_step P w c IH Hc) as (w'' & Hrun' & Hwf').
  congruence.
Qed.

(** No sequence of admissible calls runs into undefined behaviour: in a
    world the host can reach, every admissible call returns, every handle
    the host holds is dead or live, and the pinning discipline holds. *)
Lemma reachable_safe P w :
  reachable P w →
  roots_ok w ∧
  (∀ v, made_handle w v → usable w v) ∧
  (∀ c, admissible w c → ∃ w', run_call P c w = Some (tt, w') ∧ reachable P w').
Proof.
  intros Hreach. pose proof (reachable_wf P w Hreach) as Hwf.
  split; [apply (wf_roots w Hwf)|].
  split; [intros v; by apply wf_made_handle_usable|].
  intros c Hc. destruct (call_step P w c Hwf Hc) as (w' & Hrun & _).
  exists w'. split; [done|]. by eapply reachable_call.
Qed.

(** Removed is a terminal state: no admissible call, on this handle or on
    any other, changes the struct that [mlui_tray_remove] left behind. *)
Lemma removed_is_terminal P w c w' l :
  wf w → admissible w c →
  handles w !! l = Some dead_struct →
  run_call P c w = Some (tt, w') →
  handles w' !! l = Some dead_struct.
Proof.
  intros Hwf Hc Hdead Hrun.
  assert (Hlive_ne : ∀ v l0 si, mlui_unwrap_pointer v = Some l0 →
            live w l0 si → l0 ≠ l).
  { intros v l0 si _ (h & it & Hh & Hr & _) ->.
    assert (h = dead_struct) as -> by congruence. done. }
  destruct c as [path|v s|v cb|v|si]; cbn in Hc, Hrun;
    apply bind_inv in Hrun as (r & w1 & Hrun & [= <-]) || idtac.
  - destruct (make_run P path w) as (w2 & Hrun2 & Hhs & _).
    assert (w2 = w1) as -> by congruence.
    rewrite Hhs, lookup_insert_ne; [done|].
    intros Heq. pose proof (is_fresh (dom (handles w))) as Hfresh.
    rewrite Heq in Hfresh. apply Hfresh, elem_of_dom. eauto.
  - destruct (wf_made_handle_usable w v Hwf Hc) as [Hi|(l0 & si & Hv & Hlive)].
    + destruct (set_title_inert P w v s Hi) as (w2 & Hrun2 & [(Hhs & _) _]).
      assert (w2 = w1) as -> by congruence. by rewrite Hhs.
    + destruct (set_title_run P w v l0 si s Hv Hlive)
        as (it & w2 & _ & Hrun2 & Hhs & _).
      assert (w2 = w1) as -> by congruence. by rewrite Hhs.
  - destruct Hc as [Hc _].
    destruct (wf_made_handle_usable w v Hwf Hc) as [Hi|(l0 & si & Hv & Hlive)].
    + pose proof (set_on_click_inert w v cb Hi). congruence.
    + destruct (set_on_click_run w v l0 si cb Hv Hlive)
        as (h & it & w2 & _ & _ & Hrun2 & Hhs & _).
      assert (w2 = w1) as -> by congruence.
      rewrite Hhs, lookup_insert_ne; [done|]. by eapply Hlive_ne.
  - destruct (wf_made_handle_usable w v Hwf Hc) as [Hi|(l0 & si & Hv & Hlive)].
    + pose proof (remove_inert w v Hi). congruence.
    + destruct (remove_run w v l0 si Hv Hlive)
        as (h & it & w2 & _ & _ & Hrun2 & Hhs & _).
      assert (w2 = w1) as -> by congruence.
      rewrite Hhs, lookup_insert_ne; [done|]. by eapply Hlive_ne.
  - destruct (click_step w si Hwf Hc) as (w2 & Hrun2 & _).
    assert (w2 = w') as -> by congruence.
    clear Hrun2. revert Hrun. unfold click.
    intros Hrun. apply bind_inv in Hrun as (it & w1 & Hget & Hrun).
    unfold get_item in Hget. destruct (items w !! si); [|done].
    injection Hget as -> <-.
    destruct (button_target (button it)) as [t|];
      [destruct (button_action (button it)) as [[]|]|];
      try (injection Hrun as <-; done).
    unfold handleClick in Hrun.
    apply bind_inv in Hrun as (tg & w1 & Hget & Hrun).
    unfold get_target in Hget. destruct (targets w !! t); [|done].
    injection Hget as -> <-.
    destruct (decide (callback tg ≠ 0)); by injection Hrun as <-.
Qed.

(** ** The example worlds *)

Lemma world_made_live : live world_made 1 1.
Proof.
  exists (mkHandle (Some 1%positive) None 0),
         (mkItem true (mkButton None (Some " ") false None None) 1).
  repeat split; try reflexivity; [cbn; lia|done].
Qed.

Lemma world_clickable_live : live world_clickable 1 1.
Proof.
  exists (mkHandle (Some 1%positive) (Some 1%positive) 0),
         (mkItem true
            (mkButton None (Some " ") false (Some 1%positive)
               (Some sel_handleClick)) 1).
  repeat split; try reflexivity; [cbn; lia|].
  intros t [= <-]. exists (mkTarget 8 1). split; [reflexivity|cbn; lia].
Qed.

Lemma world_made_roots_ok : roots_ok world_made.
Proof. intros t. by change (targets world_made) with (∅ : gmap loc TrayTarget). Qed.

Lemma world_removed_dead : inert world_removed (mlui_unwrap_pointer handle1).
Proof. by exists (mkHandle None None 1). Qed.

(** The example worlds are worlds a host reaches: it makes a tray, sets a
    click handler, removes the tray. *)
Lemma example_worlds_reachable :
  reachable demo_platform world_made ∧
  reachable demo_platform world_clickable ∧
  reachable demo_platform world_removed.
Proof.
  assert (H1 : reachable demo_platform world_made).
  { apply (reachable_call _ empty_world (CallMake None));
      [apply reachable_start|done|reflexivity]. }
  assert (H2 : reachable demo_platform world_clickable).
  { apply (reachable_call _ world_made (CallSetOnClick handle1 8));
      [done| |reflexivity].
    split; [|done]. exists 1%positive. split; [done|]. by eexists. }
  split; [done|]. split; [done|].
  apply (reachable_call _ world_clickable (CallRemove handle1));
    [done| |reflexivity].
  exists 1%positive. split; [done|]. by eexists.
Qed.

(** ** The theorems at work *)

Lemma removed_handle_is_inert_witness :
  handles world_removed !! 1%positive = Some (mkHandle None None 1) ∧
  mlui_tray_remove handle1 world_removed = Some (Val_unit, world_removed) ∧
  mlui_tray_set_on_click handle1 8 world_removed = Some (Val_unit, world_removed).
Proof.
  pose proof (removed_handle_is_inert demo_platform world_removed handle1 1
                (mkHandle None None 1) eq_refl eq_refl ltac:(discriminate)
                ltac:(discriminate))
    as (Hremove & Hclick & _).
  split; [reflexivity|]. split; [exact Hremove|exact (Hclick 8)].
Defined.

Lemma dead_handle_is_tolerated_witness :
  mlui_tray_remove (Abstract None) empty_world = Some (Val_unit, empty_world) ∧
  mlui_tray_set_on_click (Abstract None) 8 empty_world
    = Some (Val_unit, empty_world).
Proof.
  pose proof (dead_handle_is_tolerated demo_platform empty_world (Abstract None) I)
    as (Hremove & Hclick & _).
  split; [exact Hremove|exact (Hclick 8)].
Defined.

Lemma click_without_callback_is_discarded_witness :
  targets world_adapter !! 1%positive = Some (mkTarget 0 1) ∧
  handleClick 1 None world_adapter = Some (tt, world_adapter).
Proof.
  split; [reflexivity|].
  exact (proj1 (click_without_callback_is_discarded world_adapter 1
                  (mkTarget 0 1) eq_refl eq_refl) None).
Defined.

Lemma make_with_unloadable_image_falls_back_witness :
  mlui_make_image_from_path demo_platform (String_val "/nowhere.png") = None ∧
  ∃ l si w',
    mlui_tray_make demo_platform (Some "/nowhere.png") empty_world
      = Some (Abstract (Some l), w') ∧
    handles w' !! l = Some (mkHandle (Some si) None 0) ∧
    live w' l si ∧
    shown_image w' si = Some None ∧
    items w' !! si = Some (mkItem true new_button 1) ∧
    count is_content_change (events_since empty_world w') = 0%nat.
Proof.
  split; [reflexivity|].
  exact (make_with_unloadable_image_falls_back demo_platform empty_world
           "/nowhere.png" eq_refl).
Defined.

Lemma make_with_unloadable_image_shows_nothing_witness :
  ∃ l si w',
    mlui_tray_make demo_platform (Some "/nowhere.png") empty_world
      = Some (Abstract (Some l), w') ∧
    handles w' !! l = Some (mkHandle (Some si) None 0) ∧
    shown_image w' si = Some None ∧
    shown_title w' si = Some (Some "") ∧
    (∀ w0, mlui_tray_make demo_platform None empty_world
             = Some (Abstract (Some l), w0) →
           shown_title w0 si = Some (Some " ")).
Proof.
  exact (make_with_unloadable_image_shows_nothing demo_platform empty_world
           "/nowhere.png" eq_refl).
Defined.

Lemma set_title_shows_text_witness :
  ∃ w',
    mlui_tray_set_title demo_platform handle1 "Inbox (3)" world_made
      = Some (handle1, w') ∧
    shown_image w' 1 = Some None ∧
    shown_title w' 1 = Some (Some "Inbox (3)") ∧
    visible <$> items w' !! 1%positive = Some true ∧
    isHidden ∘ button <$> items w' !! 1%positive = Some false ∧
    live w' 1 1.
Proof.
  exact (set_title_shows_text demo_platform world_made handle1 1 1 "Inbox (3)"
           eq_refl world_made_live eq_refl eq_refl).
Defined.

Lemma set_title_frame_witness :
  ∃ w',
    mlui_tray_set_title demo_platform handle1 "Inbox (3)" world_clickable
      = Some (handle1, w') ∧
    handles w' = handles world_clickable ∧
    targets w' = targets world_clickable ∧
    global_roots w' = global_roots world_clickable.
Proof.
  destruct (set_title_frame demo_platform world_clickable handle1 1 1
              "Inbox (3)" eq_refl world_clickable_live)
    as (w' & Hrun & Hhs & Hts & Hroots & _).
  by exists w'.
Defined.

Lemma set_on_click_replaces_witness :
  ∃ t wA wB wC,
    mlui_tray_set_on_click handle1 8 world_made = Some (Val_unit, wA) ∧
    mlui_tray_set_on_click handle1 16 wA = Some (Val_unit, wB) ∧
    click 1 wB = Some (tt, wC) ∧
    events_since wB wC = [CamlCallback 16 Val_unit] ∧
    root_count t (global_roots wB) = 1%nat.
Proof.
  destruct (set_on_click_replaces world_made handle1 1 1 8 16 eq_refl
              world_made_live world_made_roots_ok
              ltac:(discriminate) ltac:(discriminate))
    as (t & wA & wB & wC & HA & HB & HC & Hev & _ & _ & _ & _ & _ & _ & _ & Hone & _).
  by exists t, wA, wB, wC.
Defined.

Lemma remove_is_idempotent_witness :
  ∃ w1,
    mlui_tray_remove handle1 world_clickable = Some (Val_unit, w1) ∧
    mlui_tray_remove handle1 w1 = Some (Val_unit, w1).
Proof.
  destruct (remove_is_idempotent world_clickable handle1
              (or_intror (ex_intro _ 1%positive
                 (ex_intro _ 1%positive (conj eq_refl world_clickable_live)))))
    as (w1 & H1 & H2 & _).
  by exists w1.
Defined.

(** ** Creation, continued *)

(** X1. [mlui_tray_make] disturbs nothing that exists: the handle it
    returns unwraps to a struct that was not allocated before, on a status
    item that did not exist before, and every handle struct, status item,
    click adapter and global root of the world is as it was; the new item
    is appended to the status bar. *)
Theorem make_leaves_the_rest P vImagePath w :
  ∃ v l si w',
    mlui_tray_make P vImagePath w = Some (v, w') ∧
    mlui_unwrap_pointer v = Some l ∧
    handles w !! l = None ∧
    items w !! si = None ∧
    handles w' !! l = Some (mkHandle (Some si) None 0) ∧
    (∀ l', l' ≠ l → handles w' !! l' = handles w !! l') ∧
    (∀ si', si' ≠ si → items w' !! si' = items w !! si') ∧
    targets w' = targets w ∧
    global_roots w' = global_roots w ∧
    statusBar w' = statusBar w ++ [si].
Proof.
  destruct (make_run P vImagePath w)
    as (w' & Hrun & Hhs & His & Hts & Hroots & Hbar & _).
  exists (Abstract (Some (fresh (dom (handles w))))),
         (fresh (dom (handles w))), (fresh (dom (items w))), w'.
  split; [done|]. split; [done|].
  split; [apply not_elem_of_dom, is_fresh|].
  split; [apply not_elem_of_dom, is_fresh|].
  rewrite Hhs, His, lookup_insert_eq.
  repeat split; try done.
  - intros l' Hne. by rewrite lookup_insert_ne.
  - intros si' Hne. by rewrite lookup_insert_ne.
Qed.

(** X2. [mlui_tray_make] sets the activation policy only when it creates
    the application: with no application object yet, the application ends
    up with the accessory policy, set once; with an application already
    there, its policy is kept and never set. *)
Theorem make_activation_policy P vImagePath w :
  ∃ v w',
    mlui_tray_make P vImagePath w = Some (v, w') ∧
    NSApp w' =
      Some (match NSApp w with
            | Some policy => policy
            | None => NSApplicationActivationPolicyAccessory
            end) ∧
    count is_set_policy (events_since w w') =
      (if NSApp w is Some _ then 0%nat else 1%nat).
Proof.
  destruct (NSApp w) as [pol|] eqn:Happ;
    destruct vImagePath as [path|];
    [destruct (mlui_make_image_from_path P (String_val path)) as [img|] eqn:Himg| |
     destruct (mlui_make_image_from_path P (String_val path)) as [img|] eqn:Himg| ].
  all: eexists _, _; split; [mrun; reflexivity|].
  all: msimpl; split; [done|].
  all: since; reflexivity.
Qed.

(** X3. When the image of the given path loads, [mlui_tray_make] returns a
    live handle whose status item shows that image, with the empty title of
    a new status item and not the placeholder, and asks the button once to
    size itself. *)
Theorem make_with_image_shows_it P w path img :
  mlui_make_image_from_path P (String_val path) = Some img →
  ∃ l si w',
    mlui_tray_make P (Some path) w = Some (Abstract (Some l), w') ∧
    live w' l si ∧
    shown w' si = Some (Some img, Some "", false, true) ∧
    count is_size_to_fit (events_since w w') = 1%nat ∧
    count is_content_change (events_since w w') = 1%nat.
Proof.
  intros Hload.
  destruct (NSApp w) as [pol|] eqn:Happ.
  all: eexists _, _, _; split; [mrun; reflexivity|].
  all: split;
    [eexists _, _; msimpl; rewrite !lookup_insert_eq;
     repeat split; try done; cbn; lia|].
  all: unfold shown; msimpl; rewrite !lookup_insert_eq.
  all: split; [done|].
  all: since; by repeat split.
Qed.

(** ** Click handlers, continued *)

(** X4. The click adapter of a handle is allocated lazily and once: on a
    live handle without adapter [mlui_tray_set_on_click] allocates one and
    stores it in the struct; on a live handle that has one it allocates
    nothing and keeps the one it has. Either way the button then targets
    that adapter with the action [handleClick:]. *)
Theorem set_on_click_allocates_once w v l si cb :
  mlui_unwrap_pointer v = Some l →
  live w l si →
  ∃ h w' t,
    handles w !! l = Some h ∧
    mlui_tray_set_on_click v cb w = Some (Val_unit, w') ∧
    handles w' !! l = Some (mkHandle (Some si) (Some t) 0) ∧
    callback <$> targets w' !! t = Some cb ∧
    button_target ∘ button <$> items w' !! si = Some (Some t) ∧
    button_action ∘ button <$> items w' !! si = Some (Some sel_handleClick) ∧
    match target h with
    | Some t0 =>
        t = t0 ∧ count is_alloc_init (events_since w w') = 0%nat ∧
        dom (targets w') = dom (targets w)
    | None =>
        targets w !! t = None ∧
        count is_alloc_init (events_since w w') = 1%nat
    end.
Proof.
  intros Hv Hlive.
  destruct (set_on_click_run w v l si cb Hv Hlive)
    as (h & it & w' & Hh & Hi & Hrun & Hhs & Hts & His & _ & _ & Hev & _).
  exists h, w', (click_target w h).
  rewrite Hhs, Hts, His, !lookup_insert_eq.
  repeat split; try done.
  assert (Hcount : ∀ evs, count is_alloc_init evs
                          = count is_alloc_init (native_actions evs)).
  { intros evs. unfold count, native_actions.
    induction evs as [|e evs IH]; [done|]. destruct e; cbn; by rewrite ?IH. }
  rewrite Hcount, Hev. unfold click_target.
  destruct (target h) as [t0|] eqn:Ht.
  - split; [done|]. split; [by destruct (decide (pinned w h ≠ 0))|].
    destruct Hlive as (h' & _ & Hh' & _ & _ & _ & _ & Htg).
    assert (h' = h) as -> by congruence.
    destruct (Htg t0 Ht) as (tg & Htgs & _).
    apply dom_insert_lookup_L. by exists tg.
  - split; [apply not_elem_of_dom, is_fresh|].
    by destruct (decide (pinned w h ≠ 0)).
Qed.

(** X5. [mlui_tray_set_on_click] changes nothing that shows: on a live
    handle the image, title, hidden and visible state of its status item,
    the item's reference count, the status bar, the other status items and
    the other handle structs are as they were. *)
Theorem set_on_click_frame w v l si cb :
  mlui_unwrap_pointer v = Some l →
  live w l si →
  ∃ w',
    mlui_tray_set_on_click v cb w = Some (Val_unit, w') ∧
    shown w' si = shown w si ∧
    item_refs <$> items w' !! si = item_refs <$> items w !! si ∧
    statusBar w' = statusBar w ∧
    NSApp w' = NSApp w ∧
    (∀ si', si' ≠ si → items w' !! si' = items w !! si') ∧
    (∀ l', l' ≠ l → handles w' !! l' = handles w !! l') ∧
    live w' l si.
Proof.
  intros Hv (h & it & Hh & Hr & Hs & Hi & Hrefs & Ht).
  destruct v as [p]. cbn in Hv. subst p.
  destruct h as [hsi [t|] hrem]; cbn in Hr, Hs, Ht; subst hsi hrem.
  - destruct (Ht t eq_refl) as (tg & Htg & Htrefs).
    destruct (decide (callback tg ≠ 0)) as [Hcb|Hcb].
    all: eexists; split; [mrun; reflexivity|].
    all: unfold shown; msimpl.
    all: rewrite ?insert_insert_eq, ?lookup_insert_eq, ?Hi.
    all: repeat split; try done.
    all: try (intros ? ?; by rewrite ?lookup_insert_ne).
    all: eexists _, _; msimpl; rewrite ?lookup_insert_eq, ?Hh.
    all: repeat split; try done.
    all: intros t' [= <-]; rewrite lookup_insert_eq; eauto.
  - eexists; split; [mrun; reflexivity|].
    unfold shown; msimpl.
    rewrite ?insert_insert_eq, ?lookup_insert_eq, ?Hi.
    repeat split; try done.
    all: try (intros ? ?; by rewrite ?lookup_insert_ne).
    eexists _, _; msimpl; rewrite ?lookup_insert_eq.
    repeat split; try done.
    intros t' [= <-]; rewrite lookup_insert_eq. eexists. split; [done|]. cbn. lia.
Qed.

(** ** Removal, continued *)

Lemma owning_adapter_refs w h : owning w h → adapter_refs w h = 1%nat.
Proof.
  intros (_ & si & it & _ & _ & _ & _ & Htg). unfold adapter_refs.
  destruct (target h) as [t|]; [|done].
  by destruct (Htg t eq_refl) as (tg & -> & ?).
Qed.

(** X6. [mlui_tray_remove] gives back all that a handle owns. When the
    struct holds the only reference to its status item and to its click
    adapter and the pinning discipline holds, then after the call the
    struct is cleared and flagged, the status item is released once, is
    deallocated and is off the status bar, and the click adapter, if any,
    is released once and deallocated with its callback slot no longer a
    global root. Without adapter, adapters and roots are untouched. *)
Theorem remove_tears_down w v l h :
  mlui_unwrap_pointer v = Some l →
  handles w !! l = Some h →
  owning w h →
  roots_ok w →
  ∃ si w',
    statusItem h = Some si ∧
    mlui_tray_remove v w = Some (Val_unit, w') ∧
    handles w' !! l = Some (mkHandle None None 1) ∧
    items w' !! si = None ∧
    (si ∉ statusBar w') ∧
    count (is_release_of (ObjItem si)) (events_since w w') = 1%nat ∧
    match target h with
    | Some t =>
        targets w' !! t = None ∧
        root_count t (global_roots w') = 0%nat ∧
        count (is_release_of (ObjTarget t)) (events_since w w') = 1%nat
    | None =>
        targets w' = targets w ∧ global_roots w' = global_roots w
    end.
Proof.
  intros Hv Hh Hown Hok.
  destruct (owning_live w l h Hh Hown) as (si & Hs & Hlive).
  pose proof (owning_adapter_refs w h Hown) as Hone.
  destruct (remove_run w v l si Hv Hlive)
    as (h0 & it & w' & Hh0 & Hi & Hrun & Hhs & His & Hts & Hroots & Hbar & Hev).
  assert (h0 = h) as -> by congruence.
  destruct Hown as (_ & si0 & it0 & Hs0 & Hi0 & Hrefs & _ & Htg).
  assert (si0 = si) as -> by congruence.
  assert (it0 = it) as -> by congruence.
  rewrite Hrefs in His, Hev. rewrite Hone in Hts, Hev.
  exists si, w'. rewrite Hhs, His, lookup_insert_eq, lookup_delete_eq.
  split; [done|]. split; [done|]. split; [done|]. split; [done|].
  split; [intros Hin; by destruct (Hbar si Hin)|].
  rewrite Hev, Hts, Hroots. unfold pinned.
  destruct (target h) as [t|] eqn:Ht.
  - destruct (Htg t eq_refl) as (tg & Htgs & _). rewrite Htgs. cbn.
    pose proof (Hok t) as Hct. rewrite Htgs in Hct.
    rewrite lookup_delete_eq.
    destruct (decide (callback tg ≠ 0)) as [Hnz|Hz].
    + rewrite root_count_remove_first, Hct.
      destruct (decide (t = t)); [|done].
      destruct (decide (callback tg = 0)); [done|].
      unfold count; cbn. repeat case_bool_decide; try congruence; done.
    + rewrite Hct. destruct (decide (callback tg = 0)); [|by destruct Hz].
      unfold count; cbn. repeat case_bool_decide; try congruence; done.
  - unfold count; cbn. by rewrite bool_decide_true.
Qed.

(** X7. The operations on one handle leave the other handles alone: in a
    well-formed world, [mlui_tray_set_title], [mlui_tray_set_on_click] and
    [mlui_tray_remove] on a handle return, and the struct of any other
    handle, its status item and its click adapter are exactly as they
    were. *)
Theorem other_handles_untouched P w v l o l' h' :
  wf w →
  mlui_unwrap_pointer v = Some l →
  is_Some (handles w !! l) →
  l' ≠ l →
  handles w !! l' = Some h' →
  ∃ w',
    run_op P v o w = Some (tt, w') ∧
    handles w' !! l' = Some h' ∧
    (∀ si', statusItem h' = Some si' → items w' !! si' = items w !! si') ∧
    (∀ t', target h' = Some t' → targets w' !! t' = targets w !! t').
Proof.
  intros Hwf Hv [h Hh] Hne Hh'.
  destruct (wf_handle w Hwf l h Hh) as [->|Hown].
  { destruct (run_op_inert P w v o (dead_struct_inert w v l Hv Hh))
      as (w' & Hrun & (Hhs & His & Hts & _) & _).
    exists w'. by rewrite Hhs, His, Hts. }
  destruct (owning_live w l h Hh Hown) as (si & Hs & Hlive).
  pose proof (owning_adapter_refs w h Hown) as Hone.
  destruct (wf_apart w l h l' h' Hwf Hh Hh' Hne) as [Hitem Htarget].
  assert (Hsi : ∀ si', statusItem h' = Some si' → si ≠ si').
  { intros si' Hs' <-. by eapply Hitem. }
  destruct o as [s|cb|]; unfold run_op.
  - destruct (set_title_run P w v l si s Hv Hlive)
      as (it & w' & _ & Hrun & Hhs & Hts & _ & _ & _ & His & _).
    exists w'. split; [by erewrite bind_Some|].
    rewrite Hhs, Hts, His. repeat split; try done.
    intros si' Hs'. rewrite lookup_insert_ne; [done|by apply Hsi].
  - destruct (set_on_click_run w v l si cb Hv Hlive)
      as (h0 & it & w' & Hh0 & _ & Hrun & Hhs & Hts & His & _).
    assert (h0 = h) as -> by congruence.
    exists w'. split; [by erewrite bind_Some|].
    rewrite Hhs, Hts, His, lookup_insert_ne by done.
    repeat split; try done.
    + intros si' Hs'. rewrite lookup_insert_ne; [done|by apply Hsi].
    + intros t' Ht'. rewrite lookup_insert_ne; [done|].
      intros <-. by apply Htarget.
  - destruct (remove_run w v l si Hv Hlive)
      as (h0 & it & w' & Hh0 & _ & Hrun & Hhs & His & Hts & _).
    assert (h0 = h) as -> by congruence.
    exists w'. split; [by erewrite bind_Some|].
    rewrite Hhs, Hts, His, Hone, lookup_insert_ne by done.
    repeat split; try done.
    + intros si' Hs'. pose proof (Hsi si' Hs').
      destruct (item_refs it) as [|[|?]];
        by rewrite ?lookup_delete_ne, ?lookup_insert_ne.
    + intros t' Ht'. destruct (target h) as [t|] eqn:Ht; [|done].
      rewrite lookup_delete_ne; [done|].
      intros <-. apply Htarget. unfold click_target. by rewrite Ht.
Qed.

(** ** Reachable worlds, continued *)



Lemma root_count_all_zero roots : (∀ t, root_count t roots = 0%nat) → roots = [].
Proof.
  destruct roots as [|r roots]; [done|]. intros H. specialize (H r).
  unfold root_count in H. cbn in H. by rewrite bool_decide_true in H.
Qed.

(** X8. No sequence of admissible calls runs into undefined behaviour.
    In a world that a host has reached from the start by making trays,
    setting titles and click handlers on handles it was given, removing
    them in any order and any number of times, and clicking items of the
    status bar, every further such call returns, and the world it leaves
    can be continued from in the same way. *)
Theorem host_calls_are_defined P w c :
  reachable P w →
  admissible w c →
  ∃ w', run_call P c w = Some (tt, w') ∧ reachable P w'.
Proof.
  intros Hreach Hc.
  destruct (call_step P w c (reachable_wf P w Hreach) Hc) as (w' & Hrun & _).
  exists w'. split; [done|]. by eapply reachable_call.
Qed.

(** X9. Removed is final. Once a host has removed a tray, no call it can
    make afterwards, on that handle or on any other, changes the cleared
    and flagged struct: no later [mlui_tray_make] reuses it and no
    operation revives it. *)
Theorem removed_stays_removed P w c w' l :
  reachable P w →
  admissible w c →
  handles w !! l = Some (mkHandle None None 1) →
  run_call P c w = Some (tt, w') →
  handles w' !! l = Some (mkHandle None None 1).
Proof.
  intros Hreach Hc Hdead Hrun.
  by eapply (removed_is_terminal P w c w' l (reachable_wf P w Hreach)).
Qed.

(** X10. What removal gives back. In a reachable world where every tray
    that was made has been removed, no status item and no click adapter is
    left allocated, the status bar holds no item of this layer, and no
    global root is registered. (The handle structs themselves stay
    allocated, cleared and flagged: nothing frees them.) *)
Theorem all_removed_objects_released P w :
  reachable P w →
  all_removed w →
  items w = ∅ ∧ targets w = ∅ ∧ statusBar w = [] ∧ global_roots w = [].
Proof.
  intros Hreach Hall. pose proof (reachable_wf P w Hreach) as Hwf.
  assert (Hitems : items w = ∅).
  { apply map_empty. intros si. destruct (items w !! si) as [it|] eqn:Hi; [|done].
    destruct (wf_item_owner w Hwf si) as (l & h & Hh & Hs); [by exists it|].
    by rewrite (Hall l h Hh) in Hs. }
  assert (Htargets : targets w = ∅).
  { apply map_empty. intros t. destruct (targets w !! t) as [tg|] eqn:Ht; [|done].
    destruct (wf_target_owner w Hwf t) as (l & h & Hh & Hth); [by exists tg|].
    by rewrite (Hall l h Hh) in Hth. }
  split; [done|]. split; [done|]. split.
  - destruct (statusBar w) as [|si bar] eqn:Hbar; [done|].
    destruct (wf_bar w Hwf si) as [it Hi]; [rewrite Hbar; by left|].
    by rewrite Hitems, lookup_empty in Hi.
  - apply root_count_all_zero. intros t.
    rewrite (wf_roots w Hwf t), Htargets. by rewrite lookup_empty.
Qed.

(** X11. A tray without click handler ignores clicks. In a reachable
    world, a click on the status item of a handle for which
    [mlui_tray_set_on_click] was never called (its struct has no click
    adapter) calls nothing and leaves the world as it was. *)
Theorem click_without_handler_is_ignored P w l h si :
  reachable P w →
  handles w !! l = Some h →
  statusItem h = Some si →
  target h = None →
  click si w = Some (tt, w).
Proof.
  intros Hreach Hh Hs Ht. pose proof (reachable_wf P w Hreach) as Hwf.
  destruct (wf_handle w Hwf l h Hh) as [->|Hown]; [done|].
  destruct Hown as (_ & si0 & it & Hs0 & Hi & _ & Hbt & _).
  assert (si0 = si) as -> by congruence.
  unfold click. erewrite bind_Some; [|by unfold get_item; rewrite Hi].
  destruct (button_target (button it)) as [t|] eqn:Hb; [|done].
  specialize (Hbt t eq_refl). congruence.
Qed.


(** ** How the operations compose *)

(** X13. The last title wins: on a live handle, [mlui_tray_set_title]
    with one text and then with another leaves the state that the second
    call alone leaves; nothing of the first title remains. *)
Theorem set_title_last_wins P w v l si s1 s2 :
  mlui_unwrap_pointer v = Some l →
  live w l si →
  ∃ w1 w12 w2,
    mlui_tray_set_title P v s1 w = Some (v, w1) ∧
    mlui_tray_set_title P v s2 w1 = Some (v, w12) ∧
    mlui_tray_set_title P v s2 w = Some (v, w2) ∧
    same_state w2 w12 ∧
    shown_title w12 si = Some (stringWithCString P (String_val s2)).
Proof.
  intros Hv Hlive.
  destruct (set_title_run P w v l si s1 Hv Hlive)
    as (it & w1 & Hi & Hrun1 & Hhs1 & Hts1 & Hr1 & Hb1 & Ha1 & His1 & _).
  assert (Hlive1 : live w1 l si) by (by eapply set_title_live).
  destruct (set_title_run P w1 v l si s2 Hv Hlive1)
    as (it1 & w12 & Hi1 & Hrun12 & Hhs12 & Hts12 & Hr12 & Hb12 & Ha12 & His12 & _).
  destruct (set_title_run P w v l si s2 Hv Hlive)
    as (it' & w2 & Hi' & Hrun2 & Hhs2 & Hts2 & Hr2 & Hb2 & Ha2 & His2 & _).
  assert (it' = it) as -> by congruence.
  rewrite His1, lookup_insert_eq in Hi1. injection Hi1 as <-.
  cbn in His12. rewrite His1, insert_insert_eq in His12.
  exists w1, w12, w2. split; [done|]. split; [done|]. split; [done|].
  split.
  - repeat split; congruence.
  - unfold shown_title. by rewrite His12, lookup_insert_eq.
Qed.

Lemma remove_first_last t roots :
  root_count t roots = 0%nat → remove_first t (roots ++ [t]) = roots.
Proof.
  induction roots as [|r roots IH]; cbn.
  - intros _. by rewrite decide_True.
  - unfold root_count. cbn. destruct (decide (r = t)) as [->|Hne].
    + by rewrite bool_decide_true.
    + rewrite bool_decide_false by done. intros H. by rewrite IH.
Qed.

(** X14. The last click handler wins and the earlier one leaves no
    trace in the state: on a live handle, in a world that keeps the
    pinning discipline, [mlui_tray_set_on_click] with closure [A] and then
    with [B] leaves the handle structs, status items, click adapters,
    status bar and global roots that the call with [B] alone leaves; in
    particular no second adapter and no second root. *)
Theorem set_on_click_last_wins w v l si A B :
  mlui_unwrap_pointer v = Some l →
  live w l si →
  roots_ok w →
  A ≠ 0 →
  ∃ wA wAB wB,
    mlui_tray_set_on_click v A w = Some (Val_unit, wA) ∧
    mlui_tray_set_on_click v B wA = Some (Val_unit, wAB) ∧
    mlui_tray_set_on_click v B w = Some (Val_unit, wB) ∧
    handles wAB = handles wB ∧
    items wAB = items wB ∧
    targets wAB = targets wB ∧
    global_roots wAB = global_roots wB ∧
    statusBar wAB = statusBar wB.
Proof.
  intros Hv Hlive Hok HA.
  destruct (set_on_click_run w v l si A Hv Hlive)
    as (h & it & wA & Hh & Hi & HrunA & HhA & HtA & HiA & HrA & HbA & _ & HliveA).
  destruct (set_on_click_run w v l si B Hv Hlive)
    as (h' & it' & wB & Hh' & Hi' & HrunB & HhB & HtB & HiB & HrB & HbB & _).
  assert (h' = h) as -> by congruence.
  assert (it' = it) as -> by congruence.
  set (t := click_target w h) in *.
  destruct (set_on_click_run wA v l si B Hv HliveA)
    as (hA & itA & wAB & HhA' & HiA' & HrunAB & HhAB & HtAB & HiAB & HrAB & HbAB & _).
  rewrite HhA, lookup_insert_eq in HhA'. injection HhA' as <-.
  rewrite HiA, lookup_insert_eq in HiA'. injection HiA' as <-.
  assert (HtAt : targets wA !! t = Some (mkTarget A (adapter_refs w h)))
    by (rewrite HtA; apply lookup_insert_eq).
  unfold click_target, pinned, adapter_refs in HhAB, HtAB, HiAB, HrAB.
  cbn [target] in HhAB, HtAB, HiAB, HrAB.
  rewrite HtAt in HtAB, HrAB.
  cbn [from_option callback target_refs] in HtAB, HrAB.
  rewrite decide_True in HrAB by done.
  exists wA, wAB, wB. split; [done|]. split; [done|]. split; [done|].
  split; [by rewrite HhAB, HhA, insert_insert_eq, HhB|].
  split; [by rewrite HiAB, HiA, insert_insert_eq, HiB|].
  split; [by rewrite HtAB, HtA, insert_insert_eq, HtB|].
  split; [|congruence].
  rewrite HrAB, HrB, HrA. f_equal. apply remove_first_last.
  assert (Hadapters : ∀ t0, target h = Some t0 → is_Some (targets w !! t0)).
  { destruct Hlive as (h0 & it0 & Hh0 & _ & _ & _ & _ & Ht0).
    assert (h0 = h) as -> by congruence.
    intros t1 Ht1. destruct (Ht0 t1 Ht1) as (tg & -> & _). eauto. }
  pose proof (root_count_pinned w l h Hok Hadapters Hh) as Hcount.
  fold t in Hcount.
  destruct (decide (pinned w h ≠ 0)) as [Hnz|Hz].
  - rewrite root_count_remove_first, Hcount.
    destruct (decide (t = t)); [|done]. by destruct (decide (pinned w h = 0)).
  - rewrite Hcount. destruct (decide (pinned w h = 0)); [done|]. by destruct Hz.
Qed.

(** ** Reachable worlds: aliasing, ownership, presentation *)

(** X15. No two handles share a native object: in a reachable world two
    different handle structs never point to the same status item, nor to
    the same click adapter. *)
Theorem handles_never_alias P w l1 l2 h1 h2 :
  reachable P w →
  handles w !! l1 = Some h1 →
  handles w !! l2 = Some h2 →
  l1 ≠ l2 →
  (∀ si, statusItem h1 = Some si → statusItem h2 ≠ Some si) ∧
  (∀ t, target h1 = Some t → target h2 ≠ Some t).
Proof.
  intros Hreach Hh1 Hh2 Hne. pose proof (reachable_wf P w Hreach) as Hwf.
  split.
  - intros si Hs1 Hs2. apply Hne. by eapply (wf_item_inj w Hwf l1 l2 h1 h2 si).
  - intros t Ht1 Ht2. apply Hne. by eapply (wf_target_inj w Hwf l1 l2 h1 h2 t).
Qed.

(** X16. Retains and releases balance: in a reachable world a handle
    struct is either the cleared and flagged struct of a removed tray, or
    it is not flagged and owns exactly one reference to a status item that
    is alive and, if it has a click adapter, exactly one reference to it,
    alive too; and every status item and click adapter that is alive
    belongs to such a handle. *)
Theorem references_balance P w :
  reachable P w →
  (∀ l h, handles w !! l = Some h →
     h = mkHandle None None 1 ∨
     (removed h = 0 ∧
      ∃ si it, statusItem h = Some si ∧ items w !! si = Some it ∧
               item_refs it = 1%nat ∧
               ∀ t, target h = Some t →
                    ∃ tg, targets w !! t = Some tg ∧ target_refs tg = 1%nat)) ∧
  (∀ si, is_Some (items w !! si) →
     ∃ l h, handles w !! l = Some h ∧ removed h = 0 ∧ statusItem h = Some si) ∧
  (∀ t, is_Some (targets w !! t) →
     ∃ l h, handles w !! l = Some h ∧ removed h = 0 ∧ target h = Some t).
Proof.
  intros Hreach. pose proof (reachable_wf P w Hreach) as Hwf.
  split; [|split].
  - intros l h Hh. destruct (wf_handle w Hwf l h Hh) as [->|Hown]; [by left|].
    right. destruct Hown as (Hr & si & it & Hs & Hi & Hrefs & _ & Htg).
    split; [done|]. by exists si, it.
  - intros si Hsome.
    destruct (wf_item_owner w Hwf si Hsome) as (l & h & Hh & Hs).
    exists l, h. split; [done|]. split; [|done].
    destruct (wf_handle w Hwf l h Hh) as [->|Hown]; [done|]. apply Hown.
  - intros t Hsome.
    destruct (wf_target_owner w Hwf t Hsome) as (l & h & Hh & Ht).
    exists l, h. split; [done|]. split; [|done].
    destruct (wf_handle w Hwf l h Hh) as [->|Hown]; [done|]. apply Hown.
Qed.

Lemma click_same_state w si w' :
  click si w = Some (tt, w') → same_state w w'.
Proof.
  unfold click. intros Hrun.
  apply bind_inv in Hrun as (it & w1 & Hget & Hrun).
  unfold get_item in Hget. destruct (items w !! si); [|done].
  injection Hget as -> <-.
  destruct (button_target (button it)) as [t|];
    [destruct (button_action (button it)) as [[]|]|];
    try (injection Hrun as <-; apply same_state_refl).
  unfold handleClick in Hrun.
  apply bind_inv in Hrun as (tg & w1 & Hget & Hrun).
  unfold get_target in Hget. destruct (targets w !! t); [|done].
  injection Hget as -> <-.
  destruct (decide (callback tg ≠ 0)); injection Hrun as <-;
    by repeat split.
Qed.

(** The status bar after [mlui_tray_remove] on a live handle: what it
    held, without the handle's item. *)
Lemma remove_bar w v l si :
  mlui_unwrap_pointer v = Some l →
  live w l si →
  ∃ w', mlui_tray_remove v w = Some (Val_unit, w') ∧
        ∀ x, x ∈ statusBar w' ↔ x ∈ statusBar w ∧ x ≠ si.
Proof.
  intros Hv (h & it & Hh & Hr & Hs & Hi & Hrefs & Ht).
  destruct v as [p]. cbn in Hv. subst p.
  destruct h as [hsi [t|] hrem]; cbn in Hr, Hs, Ht; subst hsi hrem.
  - destruct (Ht t eq_refl) as (tg & Htg & Htrefs).
    destruct tg as [cb trefs]. cbn in Htrefs.
    destruct (item_refs it) as [|[|n]] eqn:Hn; [lia| |];
      (destruct trefs as [|[|m]]; [lia| |]);
      destruct (decide (cb = 0)) as [->|Hcb].
    all: eexists; split; [mrun; rewrite ?lookup_delete_eq; reflexivity|].
    all: intros x; msimpl; rewrite ?list_elem_of_filter; tauto.
  - destruct (item_refs it) as [|[|n]] eqn:Hn; [lia| |].
    all: eexists; split; [mrun; reflexivity|].
    all: intros x; msimpl; rewrite ?list_elem_of_filter; tauto.
Qed.

Lemma made_button_not_hidden P vImagePath :
  isHidden (made_button P vImagePath) = false.
Proof.
  unfold made_button. destruct vImagePath as [path|]; [|done].
  by destruct (mlui_make_image_from_path P (String_val path)).
Qed.

Lemma presented_same_state w w' : same_state w w' → presented w → presented w'.
Proof.
  intros (Hhs & His & _ & Hbar & _) Hp. unfold presented.
  by rewrite Hhs, His, Hbar.
Qed.

(** Every admissible call keeps the trays presented. *)
Lemma call_keeps_presented P w c w' :
  wf w → presented w → admissible w c →
  run_call P c w = Some (tt, w') → presented w'.
Proof.
  intros Hwf Hp Hc Hrun.
  destruct c as [path|v s|v cb|v|si0]; cbn in Hc, Hrun;
    apply bind_inv in Hrun as (r & w1 & Hrun & [= <-]) || idtac.
  - destruct (make_run P path w) as (w2 & Hrun2 & Hhs & His & _ & _ & Hbar & _).
    assert (w2 = w1) as -> by congruence.
    set (l0 := fresh (dom (handles w))) in *.
    set (si := fresh (dom (items w))) in *.
    assert (Hsi : items w !! si = None) by apply not_elem_of_dom, is_fresh.
    intros l h si'. rewrite Hhs, His, Hbar, elem_of_app, list_elem_of_singleton.
    destruct (decide (l = l0)) as [->|Hne].
    + rewrite lookup_insert_eq. intros [= <-] [= <-].
      split; [by right|]. eexists. rewrite lookup_insert_eq.
      split; [done|]. cbn. by rewrite made_button_not_hidden.
    + rewrite lookup_insert_ne by done. intros Hh Hs.
      destruct (Hp l h si' Hh Hs) as (Hin & it & Hi & Hvis & Hhid).
      split; [by left|]. exists it.
      rewrite lookup_insert_ne by congruence. done.
  - destruct (wf_made_handle_usable w v Hwf Hc) as [Hi|(l0 & si & Hv & Hlive)].
    + destruct (set_title_inert P w v s Hi) as (w2 & Hrun2 & [Hsame _]).
      assert (w2 = w1) as -> by congruence. by eapply presented_same_state.
    + destruct (set_title_run P w v l0 si s Hv Hlive)
        as (it & w2 & _ & Hrun2 & Hhs & _ & _ & Hbar & _ & His & _).
      assert (w2 = w1) as -> by congruence.
      intros l h si'. rewrite Hhs, His, Hbar. intros Hh Hs.
      destruct (Hp l h si' Hh Hs) as (Hin & it' & Hi' & Hvis & Hhid).
      split; [done|]. destruct (decide (si' = si)) as [->|Hne].
      * eexists. by rewrite lookup_insert_eq.
      * exists it'. by rewrite lookup_insert_ne.
  - destruct Hc as [Hc _].
    destruct (wf_made_handle_usable w v Hwf Hc) as [Hi|(l0 & si & Hv & Hlive)].
    + pose proof (set_on_click_inert w v cb Hi).
      assert (w1 = w) as -> by congruence. done.
    + destruct (set_on_click_run w v l0 si cb Hv Hlive)
        as (h0 & it & w2 & Hh0 & Hi0 & Hrun2 & Hhs & _ & His & _ & Hbar & _).
      assert (w2 = w1) as -> by congruence.
      assert (Hs0 : statusItem h0 = Some si).
      { destruct Hlive as (h1 & _ & Hh1 & _ & Hs1 & _). congruence. }
      destruct (Hp l0 h0 si Hh0 Hs0) as (Hin0 & it0 & Hit0 & Hvis0 & Hhid0).
      assert (it0 = it) as -> by congruence.
      intros l h si'. rewrite Hhs, His, Hbar.
      destruct (decide (l = l0)) as [->|Hne].
      * rewrite lookup_insert_eq. intros [= <-] [= <-].
        split; [done|]. eexists. by rewrite lookup_insert_eq.
      * rewrite lookup_insert_ne by done. intros Hh Hs.
        destruct (Hp l h si' Hh Hs) as (Hin & it' & Hi' & Hvis & Hhid).
        split; [done|]. destruct (decide (si' = si)) as [->|Hne'].
        -- eexists. by rewrite lookup_insert_eq.
        -- exists it'. by rewrite lookup_insert_ne.
  - destruct Hc as (l0 & Hv & [h0 Hh0]).
    destruct (wf_handle w Hwf l0 h0 Hh0) as [->|Hown].
    + pose proof (remove_inert w v (dead_struct_inert w v l0 Hv Hh0)).
      assert (w1 = w) as -> by congruence. done.
    + destruct (owning_live w l0 h0 Hh0 Hown) as (si & Hs0 & Hlive).
      destruct (remove_run w v l0 si Hv Hlive)
        as (h1 & it & w2 & _ & _ & Hrun2 & Hhs & His & _).
      assert (w2 = w1) as -> by congruence.
      destruct (remove_bar w v l0 si Hv Hlive) as (w2 & Hrun3 & Hbar).
      assert (w2 = w1) as -> by congruence.
      intros l h si'. rewrite Hhs.
      destruct (decide (l = l0)) as [->|Hne].
      * rewrite lookup_insert_eq. by intros [= <-].
      * rewrite lookup_insert_ne by done. intros Hh Hs.
        assert (Hne' : si' ≠ si).
        { intros ->. apply Hne. by eapply (wf_item_inj w Hwf). }
        destruct (Hp l h si' Hh Hs) as (Hin & it' & Hi' & Hvis & Hhid).
        split; [by apply Hbar|]. exists it'. rewrite His.
        destruct (item_refs it) as [|[|?]];
          by rewrite ?lookup_delete_ne, ?lookup_insert_ne.
  - eapply presented_same_state; [|done]. by eapply click_same_state.
Qed.

Lemma reachable_presented P w : reachable P w → presented w.
Proof.
  induction 1 as [|w c w' Hreach IH Hc Hrun].
  - intros l h si H. cbn in H. by rewrite lookup_empty in H.
  - eapply call_keeps_presented; [by eapply reachable_wf|done..].
Qed.

(** X17. A tray stays presented until it is removed: in a reachable
    world the status item of every handle that is not removed is on the
    status bar, visible, and its button is not hidden, whatever titles and
    click handlers were set and whatever other trays were made or
    removed. *)
Theorem live_trays_are_presented P w l h si :
  reachable P w →
  handles w !! l = Some h →
  statusItem h = Some si →
  si ∈ statusBar w ∧
  visible <$> items w !! si = Some true ∧
  isHidden ∘ button <$> items w !! si = Some false.
Proof.
  intros Hreach Hh Hs.
  destruct (reachable_presented P w Hreach l h si Hh Hs)
    as (Hin & it & Hi & Hvis & Hhid).
  rewrite Hi. cbn. by rewrite Hvis, Hhid.
Qed.

(** ** The further theorems at work *)

Lemma world_clickable_reachable : reachable demo_platform world_clickable.
Proof. apply example_worlds_reachable. Qed.

Lemma world_two_reachable : reachable demo_platform world_two.
Proof.
  apply (reachable_call _ world_clickable (CallMake (Some "/icons/tray.png")));
    [apply world_clickable_reachable|done|reflexivity].
Qed.

Lemma world_clickable_owning :
  owning world_clickable (mkHandle (Some 1%positive) (Some 1%positive) 0).
Proof.
  destruct (wf_handle _ (reachable_wf _ _ world_clickable_reachable) 1%positive
              (mkHandle (Some 1%positive) (Some 1%positive) 0) eq_refl)
    as [?|?]; done.
Qed.

Lemma world_removed_all_removed : all_removed world_removed.
Proof.
  intros l h.
  change (handles world_removed)
    with (<[1%positive := dead_struct]> (∅ : gmap loc TrayHandle)).
  destruct (decide (l = 1%positive)) as [->|Hne].
  - rewrite lookup_insert_eq. by intros [= <-].
  - by rewrite lookup_insert_ne, lookup_empty.
Qed.

Lemma make_with_image_shows_it_witness :
  ∃ l si w',
    mlui_tray_make demo_platform (Some "/icons/tray.png") empty_world
      = Some (Abstract (Some l), w') ∧
    live w' l si ∧
    shown w' si = Some (Some "tray.png", Some "", false, true).
Proof.
  destruct (make_with_image_shows_it demo_platform empty_world
              "/icons/tray.png" "tray.png" eq_refl)
    as (l & si & w' & Hrun & Hlive & Hshown & _).
  by exists l, si, w'.
Defined.

Lemma set_on_click_allocates_once_witness :
  ∃ w' t,
    mlui_tray_set_on_click handle1 8 world_made = Some (Val_unit, w') ∧
    handles w' !! 1%positive = Some (mkHandle (Some 1%positive) (Some t) 0) ∧
    callback <$> targets w' !! t = Some 8.
Proof.
  destruct (set_on_click_allocates_once world_made handle1 1 1 8 eq_refl
              world_made_live)
    as (h & w' & t & _ & Hrun & Hh & Hcb & _).
  by exists w', t.
Defined.

Lemma set_on_click_frame_witness :
  ∃ w',
    mlui_tray_set_on_click handle1 8 world_made = Some (Val_unit, w') ∧
    shown w' 1 = shown world_made 1.
Proof.
  destruct (set_on_click_frame world_made handle1 1 1 8 eq_refl world_made_live)
    as (w' & Hrun & Hshown & _).
  by exists w'.
Defined.

Lemma remove_tears_down_witness :
  ∃ si w',
    mlui_tray_remove handle1 world_clickable = Some (Val_unit, w') ∧
    items w' !! si = None ∧
    targets w' !! 1%positive = None ∧
    root_count 1 (global_roots w') = 0%nat.
Proof.
  destruct (remove_tears_down world_clickable handle1 1
              (mkHandle (Some 1%positive) (Some 1%positive) 0)
              eq_refl eq_refl world_clickable_owning
              (wf_roots _ (reachable_wf _ _ world_clickable_reachable)))
    as (si & w' & _ & Hrun & _ & Hi & _ & _ & Ht & Hroot & _).
  by exists si, w'.
Defined.

Lemma other_handles_untouched_witness :
  ∃ w',
    run_op demo_platform handle1 OpRemove world_two = Some (tt, w') ∧
    handles w' !! 2%positive = Some (mkHandle (Some 2%positive) None 0) ∧
    items w' !! 2%positive = items world_two !! 2%positive.
Proof.
  destruct (other_handles_untouched demo_platform world_two handle1 1 OpRemove 2
              (mkHandle (Some 2%positive) None 0)
              (reachable_wf _ _ world_two_reachable) eq_refl
              (ex_intro _ _ eq_refl) ltac:(discriminate) eq_refl)
    as (w' & Hrun & Hh & Hi & _).
  exists w'. split; [done|]. split; [done|]. by apply Hi.
Defined.

Lemma host_calls_are_defined_witness :
  ∃ w', run_call demo_platform (CallRemove handle1) world_clickable
          = Some (tt, w') ∧
        reachable demo_platform w'.
Proof.
  apply (host_calls_are_defined demo_platform world_clickable (CallRemove handle1)
           world_clickable_reachable).
  exists 1%positive. split; [reflexivity|]. by eexists.
Defined.

Lemma removed_stays_removed_witness :
  handles (run_from (run_call demo_platform (CallMake None)) world_removed)
    !! 1%positive = Some (mkHandle None None 1).
Proof.
  apply (removed_stays_removed demo_platform world_removed (CallMake None) _ 1
           (proj2 (proj2 example_worlds_reachable)) I eq_refl).
  vm_compute. reflexivity.
Defined.

Lemma all_removed_objects_released_witness :
  items world_removed = ∅ ∧ targets world_removed = ∅ ∧
  statusBar world_removed = [] ∧ global_roots world_removed = [].
Proof.
  exact (all_removed_objects_released demo_platform world_removed
           (proj2 (proj2 example_worlds_reachable)) world_removed_all_removed).
Defined.

Lemma click_without_handler_is_ignored_witness :
  click 1 world_made = Some (tt, world_made).
Proof.
  exact (click_without_handler_is_ignored demo_platform world_made 1
           (mkHandle (Some 1%positive) None 0) 1
           (proj1 example_worlds_reachable) eq_refl eq_refl eq_refl).
Defined.


Lemma set_title_last_wins_witness :
  ∃ w1 w12 w2,
    mlui_tray_set_title demo_platform handle1 "Inbox (3)" world_made
      = Some (handle1, w1) ∧
    mlui_tray_set_title demo_platform handle1 "Inbox" w1 = Some (handle1, w12) ∧
    mlui_tray_set_title demo_platform handle1 "Inbox" world_made
      = Some (handle1, w2) ∧
    same_state w2 w12.
Proof.
  destruct (set_title_last_wins demo_platform world_made handle1 1 1
              "Inbox (3)" "Inbox" eq_refl world_made_live)
    as (w1 & w12 & w2 & H1 & H12 & H2 & Hsame & _).
  by exists w1, w12, w2.
Defined.

Lemma set_on_click_last_wins_witness :
  ∃ wA wAB wB,
    mlui_tray_set_on_click handle1 8 world_made = Some (Val_unit, wA) ∧
    mlui_tray_set_on_click handle1 16 wA = Some (Val_unit, wAB) ∧
    mlui_tray_set_on_click handle1 16 world_made = Some (Val_unit, wB) ∧
    global_roots wAB = global_roots wB.
Proof.
  destruct (set_on_click_last_wins world_made handle1 1 1 8 16 eq_refl
              world_made_live
              (wf_roots _ (reachable_wf _ _ (proj1 example_worlds_reachable)))
              ltac:(discriminate))
    as (wA & wAB & wB & HA & HAB & HB & _ & _ & _ & Hroots & _).
  by exists wA, wAB, wB.
Defined.

Lemma handles_never_alias_witness :
  handles world_two !! 1%positive
    = Some (mkHandle (Some 1%positive) (Some 1%positive) 0) ∧
  handles world_two !! 2%positive = Some (mkHandle (Some 2%positive) None 0) ∧
  ∀ si, Some 1%positive = Some si → Some 2%positive ≠ Some si.
Proof.
  split; [reflexivity|]. split; [reflexivity|].
  exact (proj1 (handles_never_alias demo_platform world_two 1 2
                  (mkHandle (Some 1%positive) (Some 1%positive) 0)
                  (mkHandle (Some 2%positive) None 0)
                  world_two_reachable eq_refl eq_refl ltac:(discriminate))).
Defined.

Lemma references_balance_witness :
  ∃ l h, handles world_two !! l = Some h ∧ removed h = 0 ∧
         statusItem h = Some 2%positive.
Proof.
  apply (proj1 (proj2 (references_balance demo_platform world_two
                         world_two_reachable)) 2%positive).
  by eexists.
Defined.

Lemma live_trays_are_presented_witness :
  2%positive ∈ statusBar world_two ∧
  visible <$> items world_two !! 2%positive = Some true ∧
  isHidden ∘ button <$> items world_two !! 2%positive = Some false.
Proof.
  exact (live_trays_are_presented demo_platform world_two 2
           (mkHandle (Some 2%positive) None 0) 2
           world_two_reachable eq_refl eq_refl).
Defined.

(** ** Paths with a NUL byte *)

Lemma String_val_cut p rest :
  NUL_free p = true → String_val (p +:+ String Ascii.zero rest) = p.
Proof.
  induction p as [|c p IH]; [done|].
  simpl. destruct (Ascii.eqb c Ascii.zero); [done|]. simpl.
  intros H. by rewrite IH.
Qed.

(** X18. The image path is read as a C string: what follows a NUL byte in
    the OCaml string plays no part, so [mlui_tray_make] with a path that
    continues after a NUL byte does exactly what it does with the part
    before that byte. *)
Theorem make_path_is_cut_at_NUL P w p rest :
  NUL_free p = true →
  mlui_tray_make P (Some (p +:+ String Ascii.zero rest)) w
  = mlui_tray_make P (Some p) w.
Proof.
  intros Hp. unfold mlui_tray_make. cbv beta iota zeta.
  by rewrite (String_val_cut p rest Hp), (String_val_NUL_free p Hp).
Qed.

Lemma make_path_is_cut_at_NUL_witness :
  mlui_tray_make demo_platform
    (Some ("/icons/tray.png" +:+ String Ascii.zero ".txt")) empty_world
  = mlui_tray_make demo_platform (Some "/icons/tray.png") empty_world.
Proof.
  exact (make_path_is_cut_at_NUL demo_platform empty_world "/icons/tray.png"
           ".txt" eq_refl).
Defined.
